(** * The time-series pipeline of the Ethereum dashboard (src/main.py)

    A shallow embedding of the data path of [main.py]: the cleaning step
    [load_data], the date slice, the calendar resampling, the monthly
    return, the rolling means and the moving-average crossover masks.

    Numbers.  The program computes with pandas [float64] columns.  Two
    embeddings of them are used.

    - Where the value of a result matters to the last digit (the monthly
      return), the numbers are IEEE 754 binary64 floats ([F64], on the
      specification of the standard library): every operation rounds as
      the processor does, and zeros are signed.

    - Where only the structure of a result matters (which entries are
      missing, which window or bucket a value comes from, the sign of a
      change), finite values are canonical rationals ([Qc]) with exact
      arithmetic, a missing value (pandas' NaN) is [None] in a [cell],
      and the results of a division, which may be infinite or
      not-a-number, live in [fval].  Rounding and overflow are left out
      of this embedding. *)

From Stdlib Require Import String.
From Stdlib Require Import List ZArith QArith Qcanon Bool Lia Arith.
From Stdlib Require Import Permutation Sorted SpecFloat.
Import ListNotations.

(** ** Numbers *)

Module Num.

(** A column entry: [None] is NaN. *)
Abbreviation cell := (option Qc).

(** The value of a float expression: finite, infinite, or NaN. *)
Inductive fval : Type :=
| Fin (q : Qc)
| PInf
| NInf
| NaN.

Definition Qc_ltb (a b : Qc) : bool := negb (Qle_bool b a).
Definition Qc_leb (a b : Qc) : bool := Qle_bool a b.
Definition Qc_eqb (a b : Qc) : bool := Qeq_bool a b.

Definition of_Z (z : Z) : Qc := Q2Qc (inject_Z z).
Definition of_nat (n : nat) : Qc := of_Z (Z.of_nat n).

Definition is_inf (v : fval) : bool :=
  match v with PInf | NInf => true | _ => false end.

Definition is_nan (v : fval) : bool :=
  match v with NaN => true | _ => false end.

Definition fneg (v : fval) : fval :=
  match v with
  | Fin q => Fin (- q)
  | PInf => NInf
  | NInf => PInf
  | NaN => NaN
  end.

(** The sign of a finite value selects the infinity of [x / 0].  Zero
    has no sign among the rationals: this is the quotient by +0.0 (by
    -0.0 the infinity has the other sign; see [F64]). *)
Definition inf_of_sign (q : Qc) : fval :=
  if Qc_eqb q 0 then NaN else if Qc_ltb 0 q then PInf else NInf.

Definition fsub (a b : fval) : fval :=
  match a, b with
  | NaN, _ | _, NaN => NaN
  | Fin x, Fin y => Fin (x - y)
  | Fin _, PInf => NInf
  | Fin _, NInf => PInf
  | PInf, PInf => NaN
  | PInf, _ => PInf
  | NInf, NInf => NaN
  | NInf, _ => NInf
  end.

Definition fmul (a b : fval) : fval :=
  match a, b with
  | NaN, _ | _, NaN => NaN
  | Fin x, Fin y => Fin (x * y)
  | Fin x, PInf | PInf, Fin x => inf_of_sign x
  | Fin x, NInf | NInf, Fin x => fneg (inf_of_sign x)
  | PInf, PInf | NInf, NInf => PInf
  | PInf, NInf | NInf, PInf => NInf
  end.

(** Float division does not raise: a zero divisor gives an infinity, or
    NaN for [0 / 0]. *)
Definition fdiv (a b : fval) : fval :=
  match a, b with
  | NaN, _ | _, NaN => NaN
  | Fin x, Fin y => if Qc_eqb y 0 then inf_of_sign x else Fin (x / y)
  | Fin _, (PInf | NInf) => Fin 0
  | (PInf | NInf), (PInf | NInf) => NaN
  | PInf, Fin y => if Qc_ltb y 0 then NInf else PInf
  | NInf, Fin y => if Qc_ltb y 0 then PInf else NInf
  end.

End Num.
Import Num.

(** ** Monthly return (lines 224-225) and the range KPI (lines 121-123) *)

(** [Series.shift(1)]: every value moves one place down, the first place
    is NaN and the last value falls off. *)
Definition shift1 {A} (xs : list (option A)) : list (option A) :=
  match xs with
  | [] => []
  | _ :: _ => None :: removelast xs
  end.

Definition lift (c : cell) : fval :=
  match c with Some q => Fin q | None => NaN end.

Fixpoint map2 {A B C} (f : A -> B -> C) (xs : list A) (ys : list B) : list C :=
  match xs, ys with
  | x :: xs', y :: ys' => f x y :: map2 f xs' ys'
  | _, _ => []
  end.

Definition hundred : Qc := of_Z 100.

(** [close_m.pct_change()]: the series divided by its shift, minus one.
    [close_m] went through [dropna], so it holds finite numbers.  This
    is the return in exact arithmetic: it has the NaNs, the infinities
    and the signs of the program's returns, not their last digits, which
    [pct_change64] below has. *)
Definition pct_change (xs : list Qc) : list fval :=
  let data := map (@Some Qc) xs in
  map2 (fun x p => fsub (fdiv (lift x) (lift p)) (Fin 1)) data (shift1 data).

(** [ret_m = close_m.pct_change() * 100]. *)
Definition ret_m (close_m : list Qc) : list fval :=
  map (fun v => fmul v (Fin hundred)) (pct_change close_m).

(** The formula of the specification, in the same arithmetic. *)
Definition pct_formula (prev cur : Qc) : fval :=
  fmul (fdiv (fsub (Fin cur) (Fin prev)) (Fin prev)) (Fin hundred).

(** [var_pct = (ultimo - primeiro) / primeiro * 100 if primeiro != 0 else 0.0]
    over the non-empty [serie]; the program stops before this line when
    [serie] is empty, which is [None] here. *)
Definition var_pct (serie : list Qc) : option fval :=
  match serie with
  | [] => None
  | primeiro :: _ =>
      let ultimo := last serie primeiro in
      Some (if negb (Qc_eqb primeiro 0)
            then fmul (fdiv (fsub (Fin ultimo) (Fin primeiro)) (Fin primeiro))
                      (Fin hundred)
            else Fin 0)
  end.

(** ** The monthly return in binary64 (lines 224-225) *)

Module F64.

(** A [float64]: sign, mantissa and exponent, or a signed zero, a signed
    infinity or NaN. *)
Abbreviation f64 := spec_float.

Definition prec64 : Z := 53.
Definition emax64 : Z := 1024.

(** The float of an integer, and the float 2^e. *)
Definition of_int (z : Z) : f64 := binary_normalize prec64 emax64 z 0 false.

Definition div64 (x y : f64) : f64 := SFdiv prec64 emax64 x y.
Definition sub64 (x y : f64) : f64 := SFsub prec64 emax64 x y.
Definition mul64 (x y : f64) : f64 := SFmul prec64 emax64 x y.

Definition nan64 : f64 := S754_nan.

Definition is_nan64 (x : f64) : bool :=
  match x with S754_nan => true | _ => false end.

Definition is_inf64 (x : f64) : bool :=
  match x with S754_infinity _ => true | _ => false end.

End F64.
Import F64.

(** [Series.shift(1)] on floats. *)
Definition shift64 (xs : list f64) : list f64 :=
  match xs with
  | [] => []
  | _ :: _ => nan64 :: removelast xs
  end.

(** [close_m.pct_change()]: [data / data.shift(1) - 1]. *)
Definition pct_change64 (xs : list f64) : list f64 :=
  map2 (fun x p => sub64 (div64 x p) (of_int 1)) xs (shift64 xs).

(** [ret_m = close_m.pct_change() * 100]. *)
Definition ret_m64 (close_m : list f64) : list f64 :=
  map (fun v => mul64 v (of_int 100)) (pct_change64 close_m).



(** ** Calendar *)

Module Calendar.
Open Scope Z_scope.

(** A pandas [Timestamp]: nanoseconds since 1970-01-01T00:00. *)
Definition Timestamp : Type := Z.

Definition ns_per_day : Z := 86400000000000.

(** Day ordinal (days since the epoch) of a timestamp; [.date()]. *)
Definition day_of (t : Timestamp) : Z := t / ns_per_day.

Definition day_start (d : Z) : Timestamp := d * ns_per_day.
Definition day_end (d : Z) : Timestamp := (d + 1) * ns_per_day - 1.

(** Year of the 400-year era and count of months since the March that
    starts the era, for a day of the era (0 to 146096). *)
Definition era_year (doe : Z) : Z :=
  (doe - doe / 1460 + doe / 36524 - doe / 146096) / 365.

Definition era_months (doe : Z) : Z :=
  let yoe := era_year doe in
  let doy := doe - (365 * yoe + yoe / 4 - yoe / 100) in
  12 * yoe + (5 * doy + 2) / 153.

(** Proleptic Gregorian calendar: count of months since March of year 0
    for a day ordinal (years start in March, so that the leap day is
    the last day of a year). *)
Definition march_months (d : Z) : Z :=
  let z := d + 719468 in
  4800 * (z / 146097) + era_months (z mod 146097).

(** Months since January of year 0. *)
Definition month_index (d : Z) : Z := march_months d + 2.

Definition year_of_day (d : Z) : Z := month_index d / 12.
Definition month_of_day (d : Z) : Z := month_index d mod 12 + 1.

(** Day ordinal of the civil date [y-m-d]. *)
Definition days_from_civil (y m d : Z) : Z :=
  let y' := if m <=? 2 then y - 1 else y in
  let era := y' / 400 in
  let yoe := y' - era * 400 in
  let mp := if 2 <? m then m - 3 else m + 9 in
  let doy := (153 * mp + 2) / 5 + d - 1 in
  let doe := yoe * 365 + yoe / 4 - yoe / 100 + doy in
  era * 146097 + doe - 719468.

(** Midnight of a civil date, and a time of day in seconds after it. *)
Definition at_date (y m d : Z) : Timestamp := day_start (days_from_civil y m d).
Definition at_time (y m d secs : Z) : Timestamp :=
  at_date y m d + secs * 1000000000.

(** The values of [freq_map]: "D", "M", "Y". *)
Inductive Freq : Type := FreqD | FreqM | FreqY.

(** The calendar bucket of a timestamp: its day, month or year, as an
    ordinal.  pandas labels the bucket by its last day; the ordinal
    determines the label. *)
Definition bucket (f : Freq) (t : Timestamp) : Z :=
  match f with
  | FreqD => day_of t
  | FreqM => month_index (day_of t)
  | FreqY => year_of_day (day_of t)
  end.

End Calendar.
Import Calendar.

(** ** The data frame and [load_data] (lines 33-46) *)

(** A row of the frame returned by [load_data]: the index "Open time" and
    the five numeric columns. *)
Record Row : Type := mkRow {
  open_time : Timestamp;
  Open : cell;
  High : cell;
  Low : cell;
  Close : cell;
  Volume : cell
}.

Definition DataFrame : Type := list Row.

(** The keys of [labels], which the metric select box offers. *)
Inductive Metric : Type := MClose | MOpen | MHigh | MLow | MVolume.

Definition column (m : Metric) (r : Row) : cell :=
  match m with
  | MClose => Close r
  | MOpen => Open r
  | MHigh => High r
  | MLow => Low r
  | MVolume => Volume r
  end.

(** A series: index and value, in frame order. *)
Definition Series : Type := list (Timestamp * cell).

(** [df[metrica]]. *)
Definition get_column (m : Metric) (df : DataFrame) : Series :=
  map (fun r => (open_time r, column m r)) df.

(** A line of the CSV file as [read_csv] hands it over. *)
Record RawRow : Type := mkRaw {
  raw_open_time : string;
  raw_open : string;
  raw_high : string;
  raw_low : string;
  raw_close : string;
  raw_volume : string
}.

(** The frame between the coercions and [dropna]: the time may be NaT. *)
Record Coerced : Type := mkCoerced {
  c_time : option Timestamp;
  c_open : cell;
  c_high : cell;
  c_low : cell;
  c_close : cell;
  c_volume : cell
}.

(** [sort_values("Open time")]: ascending by the key.  pandas does not fix
    the order of rows with equal keys; this insertion keeps them in input
    order: a row goes in front of the rows that are not earlier than it,
    and the rows are inserted from the last to the first. *)
Fixpoint insert_row (r : Row) (df : DataFrame) : DataFrame :=
  match df with
  | [] => [r]
  | x :: rest =>
      if (open_time r <=? open_time x)%Z then r :: df
      else x :: insert_row r rest
  end.

Definition sort_values (df : DataFrame) : DataFrame :=
  fold_right insert_row [] df.

(** [dropna(subset=["Open time", "Close"])], typed: a kept row has a
    time, which [set_index] then makes the index. *)
Definition dropna_time_close (c : Coerced) : option Row :=
  match c_time c, c_close c with
  | Some t, Some _ =>
      Some (mkRow t (c_open c) (c_high c) (c_low c) (c_close c) (c_volume c))
  | _, _ => None
  end.

Fixpoint filter_map {A B} (f : A -> option B) (xs : list A) : list B :=
  match xs with
  | [] => []
  | x :: xs' =>
      match f x with
      | Some y => y :: filter_map f xs'
      | None => filter_map f xs'
      end
  end.

Section Load.

(** [pd.to_datetime(_, errors="coerce")] and
    [pd.to_numeric(_, errors="coerce")] on one entry: [None] is the
    NaT or NaN that a failed parse is coerced to. *)
Variable to_datetime : string -> option Timestamp.
Variable to_numeric : string -> cell.

Definition coerce (r : RawRow) : Coerced :=
  mkCoerced (to_datetime (raw_open_time r))
            (to_numeric (raw_open r)) (to_numeric (raw_high r))
            (to_numeric (raw_low r)) (to_numeric (raw_close r))
            (to_numeric (raw_volume r)).

Definition load_data (csv : list RawRow) : DataFrame :=
  sort_values (filter_map dropna_time_close (map coerce csv)).

(** What becomes of one line: its row, if it is kept. *)
Definition clean_row (r : RawRow) : option Row := dropna_time_close (coerce r).

(** Both parses of a raw row succeeded. *)
Definition parses (r : RawRow) : bool :=
  match to_datetime (raw_open_time r), to_numeric (raw_close r) with
  | Some _, Some _ => true
  | _, _ => false
  end.

End Load.

(** Ascending by time: every row is at or before all rows after it. *)
Definition time_le (a b : Row) : Prop := (open_time a <= open_time b)%Z.

Definition sorted_by_time (df : DataFrame) : Prop := StronglySorted time_le df.

(** ** The date slice (lines 96-107) *)

Definition index_min (df : DataFrame) : option Timestamp :=
  match df with
  | [] => None
  | r :: rest => Some (fold_left Z.min (map open_time rest) (open_time r))
  end.

Definition index_max (df : DataFrame) : option Timestamp :=
  match df with
  | [] => None
  | r :: rest => Some (fold_left Z.max (map open_time rest) (open_time r))
  end.

(** [min_d, max_d = df.index.min().date(), df.index.max().date()]. *)
Definition date_bounds (df : DataFrame) : option (Z * Z) :=
  match index_min df, index_max df with
  | Some lo, Some hi => Some (day_of lo, day_of hi)
  | _, _ => None
  end.

(** Position of the first row that fails [p]: on a frame sorted by time
    and a [p] that holds on an initial segment, the position a binary
    search ([searchsorted]) finds. *)
Fixpoint first_failing {A} (p : A -> bool) (xs : list A) : nat :=
  match xs with
  | [] => 0
  | x :: rest => if p x then S (first_failing p rest) else 0
  end.

(** [df.loc[str(dt_ini):str(dt_fim)]] on the sorted index: a date string
    stands for its whole day, so the slice runs from the first row at or
    after the start of [dt_ini] up to the last row at or before the end
    of [dt_fim]. *)
Definition loc_dates (df : DataFrame) (dt_ini dt_fim : Z) : DataFrame :=
  let i0 := first_failing (fun r => (open_time r <? day_start dt_ini)%Z) df in
  let i1 := first_failing (fun r => (open_time r <=? day_end dt_fim)%Z) df in
  firstn (i1 - i0) (skipn i0 df).

Definition in_range (t0 t1 : Timestamp) (r : Row) : bool :=
  ((t0 <=? open_time r) && (open_time r <=? t1))%Z.

(** ** Resampling (lines 109-112 and 224) *)

Definition series_min (s : Series) : option Timestamp :=
  match s with
  | [] => None
  | p :: rest => Some (fold_left Z.min (map fst rest) (fst p))
  end.

Definition series_max (s : Series) : option Timestamp :=
  match s with
  | [] => None
  | p :: rest => Some (fold_left Z.max (map fst rest) (fst p))
  end.

(** The integers from [lo] to [hi], both included. *)
Definition Zrange (lo hi : Z) : list Z :=
  map (fun k => (lo + Z.of_nat k)%Z) (seq 0 (Z.to_nat (hi - lo + 1))).

(** The values that fall in bucket [b]. *)
Definition group (f : Freq) (b : Z) (s : Series) : list cell :=
  map snd (filter (fun p => (bucket f (fst p) =? b)%Z) s).

(** The non-missing values of a list of entries. *)
Definition present (cs : list cell) : list Qc :=
  flat_map (fun c => match c with Some q => [q] | None => [] end) cs.

Definition qsum (qs : list Qc) : Qc := fold_left Qcplus qs 0%Qc.

Inductive Agg : Type := AggLast | AggSum.

(** ["last"]: the last non-missing value of the group, NaN if there is
    none.  ["sum"]: the sum of the non-missing values, which is 0 for a
    group without any. *)
Definition agg_apply (a : Agg) (g : list cell) : cell :=
  match a with
  | AggLast => last (map (@Some Qc) (present g)) None
  | AggSum => Some (qsum (present g))
  end.

(** [s.resample(freq).agg(agg)]: one entry for every calendar bucket from
    the bucket of the earliest time to the bucket of the latest. *)
Definition resample (f : Freq) (a : Agg) (s : Series) : list (Z * cell) :=
  match series_min s, series_max s with
  | Some lo, Some hi =>
      map (fun b => (b, agg_apply a (group f b s)))
          (Zrange (bucket f lo) (bucket f hi))
  | _, _ => []
  end.

(** [.dropna()] on a series. *)
Definition dropna {K} (s : list (K * cell)) : list (K * Qc) :=
  filter_map (fun p => match snd p with Some q => Some (fst p, q) | None => None end) s.

(** [agg = "sum" if metrica == "Volume" else "last"]. *)
Definition agg_of (m : Metric) : Agg :=
  match m with MVolume => AggSum | _ => AggLast end.

(** [serie = df[metrica].resample(freq).agg(agg).dropna()]. *)
Definition serie (f : Freq) (m : Metric) (df : DataFrame) : list (Z * Qc) :=
  dropna (resample f (agg_of m) (get_column m df)).

(** [close_m = df["Close"].resample("M").last().dropna()]. *)
Definition close_m (df : DataFrame) : list (Z * Qc) :=
  dropna (resample FreqM AggLast (get_column MClose df)).

(** The sum of the values of the rows of bucket [b], row by row. *)
Fixpoint bucket_total (f : Freq) (b : Z) (s : Series) : Qc :=
  match s with
  | [] => 0%Qc
  | (t, c) :: rest =>
      ((if (bucket f t =? b)%Z
        then match c with Some q => q | None => 0%Qc end
        else 0%Qc)
       + bucket_total f b rest)%Qc
  end.

(** No entry of bucket [b] in [post] has a value. *)
Definition silent (f : Freq) (b : Z) (post : Series) : Prop :=
  forall t c, In (t, c) post -> bucket f t = b -> c = None.

(** The sum of the volumes of the rows of bucket [b]. *)
Definition volume_total (f : Freq) (b : Z) (df : DataFrame) : Qc :=
  bucket_total f b (get_column MVolume df).

(** ** Rolling means (lines 247 and 294-295) *)

(** The entries of the window of size [w] that ends at position [i]:
    positions [i+1-w] (or 0, if that is negative) to [i]. *)
Definition window (w i : nat) (xs : list cell) : list cell :=
  skipn (S i - w) (firstn (S i) xs).

(** One entry of [rolling(w, min_periods).mean()]: the mean of the
    non-missing entries of the window, if there are at least
    [min_periods] of them (and at least one); NaN otherwise. *)
Definition roll_mean_at (w min_periods : nat) (xs : list cell) (i : nat) : cell :=
  let obs := present (window w i xs) in
  let nobs := length obs in
  if (min_periods <=? nobs)%nat && (0 <? nobs)%nat
  then Some (qsum obs / of_nat nobs)%Qc
  else None.

Definition rolling_mean (w min_periods : nat) (xs : list cell) : list cell :=
  map (roll_mean_at w min_periods xs) (seq 0 (length xs)).

(** [vol_ma = df["Volume"].rolling(30, min_periods=1).mean()]. *)
Definition vol_ma (df : DataFrame) : list cell :=
  rolling_mean 30 1 (map Volume df).

(** [df["Close"].rolling(int(win)).mean()]: without [min_periods], pandas
    takes the window size for it. *)
Definition rolling_close (win : nat) (df : DataFrame) : list cell :=
  rolling_mean win win (map Close df).

(** The mean of the [k] values of [xs] at positions [i], [i-1], ...,
    [i-k+1], as the specification words it. *)
Fixpoint sum_back (k i : nat) (xs : list Qc) : Qc :=
  match k with
  | O => 0%Qc
  | S k' => (nth (i - k') xs 0 + sum_back k' i xs)%Qc
  end.

Definition mean_latest (k i : nat) (xs : list Qc) : Qc :=
  (sum_back k i xs / of_nat k)%Qc.

(** ** Crossovers of the two moving averages (lines 312-325) *)

(** Comparisons of float entries: false as soon as one side is NaN. *)
Definition cell_lt (a b : cell) : bool :=
  match a, b with Some x, Some y => Qc_ltb x y | _, _ => false end.

Definition cell_le (a b : cell) : bool :=
  match a, b with Some x, Some y => Qc_leb x y | _, _ => false end.

(** [(s.shift(1) < l.shift(1)) & (s >= l)]. *)
Definition cross_up (mm_curta mm_longa : list cell) : list bool :=
  map2 andb
       (map2 cell_lt (shift1 mm_curta) (shift1 mm_longa))
       (map2 (fun s l => cell_le l s) mm_curta mm_longa).

(** [(s.shift(1) > l.shift(1)) & (s <= l)]. *)
Definition cross_dn (mm_curta mm_longa : list cell) : list bool :=
  map2 andb
       (map2 (fun s l => cell_lt l s) (shift1 mm_curta) (shift1 mm_longa))
       (map2 cell_le mm_curta mm_longa).

(** [mask.fillna(False)]: a comparison mask has no missing entry, so
    nothing is filled. *)
Definition fillna_false (mask : list bool) : list bool := mask.

(** [df.index[mask]], with positions for the index labels. *)
Fixpoint positions_from (i : nat) (mask : list bool) : list nat :=
  match mask with
  | [] => []
  | b :: rest =>
      if b then i :: positions_from (S i) rest else positions_from (S i) rest
  end.

Definition select (mask : list bool) : list nat := positions_from 0 mask.

Definition up_crossings (mm_curta mm_longa : list cell) : list nat :=
  select (fillna_false (cross_up mm_curta mm_longa)).

Definition down_crossings (mm_curta mm_longa : list cell) : list nat :=
  select (fillna_false (cross_dn mm_curta mm_longa)).

(** A series has no number at position [i]: the position is NaN or
    outside the series. *)
Definition undefined_at (s : list (option Qc)) (i : nat) : Prop :=
  forall x, nth_error s i <> Some (Some x).

(** ** The moving-average tab (lines 284-335) *)

Record MovingAverages : Type := mkMA {
  mm_curta : list cell;
  mm_longa : list cell;
  ma_up : list nat;
  ma_dn : list nat
}.

Inductive TabResult : Type :=
| Warning (msg : string)
| Chart (ma : MovingAverages).

Definition short_window_warning : string :=
  "A janela curta deve ser menor que a janela longa."%string.

(** The body of [with sub3:] for the window sizes the two number inputs
    return. *)
Definition moving_average_tab (df : DataFrame) (win_short win_long : nat)
  : TabResult :=
  if (win_long <=? win_short)%nat then Warning short_window_warning
  else
    let s := rolling_close win_short df in
    let l := rolling_close win_long df in
    Chart (mkMA s l (up_crossings s l) (down_crossings s l)).

(** ** Bar colours (lines 143-145, 229 and 248-250) *)

Inductive Color : Type := Green | Red | LightGray.

(** [Series.diff()]: each entry minus the one before it; NaN at the
    first place and wherever one of the two is NaN. *)
Definition diff (xs : list cell) : list cell :=
  map2 (fun x p =>
          match x, p with
          | Some a, Some b => Some (a - b)%Qc
          | _, _ => None
          end)
       xs (shift1 xs).

Definition cell_pos (d : cell) : bool :=
  match d with Some q => Qc_ltb 0 q | None => false end.

Definition cell_neg (d : cell) : bool :=
  match d with Some q => Qc_ltb q 0 | None => false end.

(** [np.where(delta > 0, "green", np.where(delta < 0, "red", "lightgray"))]. *)
Definition sign_colors (delta : list cell) : list Color :=
  map (fun d => if cell_pos d then Green
                else if cell_neg d then Red else LightGray)
      delta.

(** [if len(colors): colors[0] = "lightgray"]. *)
Definition reset_first (colors : list Color) : list Color :=
  match colors with
  | [] => []
  | _ :: rest => LightGray :: rest
  end.

(** The colours of the evolution chart, from the values of [serie]. *)
Definition evolution_colors (values : list Qc) : list Color :=
  reset_first (sign_colors (diff (map (@Some Qc) values))).

(** [vol_colors], from [df["Volume"]]. *)
Definition vol_colors (df : DataFrame) : list Color :=
  reset_first (sign_colors (diff (map Volume df))).

(** [ret_m.fillna(0)]. *)
Definition fillna_zero (v : fval) : fval :=
  match v with NaN => Fin 0%Qc | _ => v end.

(** [v > 0] on a float. *)
Definition fval_pos (v : fval) : bool :=
  match v with
  | Fin q => Qc_ltb 0 q
  | PInf => true
  | NInf | NaN => false
  end.

(** [["green" if v > 0 else "red" for v in ret_m.fillna(0)]]. *)
Definition return_colors (ret : list fval) : list Color :=
  map (fun v => if fval_pos (fillna_zero v) then Green else Red) ret.

(** What the colour of a bar says about the value before it, [p], and
    its own value, [c]: green for a rise, red for a fall, light gray for
    no change or when one of the two is missing. *)
Definition step_color (p c : cell) (col : Color) : Prop :=
  match p, c with
  | Some a, Some b =>
      ((a < b)%Qc -> col = Green) /\
      ((b < a)%Qc -> col = Red) /\
      (a = b -> col = LightGray)
  | _, _ => col = LightGray
  end.

(** ** The monthly return tab (lines 222-242) *)

(** [ret_m.dropna()]. *)
Definition dropna_fval (ret : list fval) : list fval :=
  filter (fun v => negb (is_nan v)) ret.

Inductive ReturnsTab : Type :=
| ReturnsInfo
| ReturnsBars (ys : list fval) (colors : list Color).

Definition is_empty {A} (xs : list A) : bool :=
  match xs with [] => true | _ :: _ => false end.

(** The body of [with sub1:]: the info box when no return is a number,
    the bar chart otherwise. *)
Definition returns_tab (df : DataFrame) : ReturnsTab :=
  let ret := ret_m (map snd (close_m df)) in
  if is_empty (dropna_fval ret) then ReturnsInfo
  else ReturnsBars ret (return_colors ret).

(** ** The yearly candlestick tab (lines 175-191) *)

(** [df.index.year] of a row. *)
Definition year_of_row (r : Row) : Z := year_of_day (day_of (open_time r)).

(** [.unique()]: the distinct values in order of first appearance. *)
Fixpoint unique (xs : list Z) : list Z :=
  match xs with
  | [] => []
  | x :: rest => x :: filter (fun y => negb (y =? x)%Z) (unique rest)
  end.

Fixpoint insert_Z (x : Z) (xs : list Z) : list Z :=
  match xs with
  | [] => [x]
  | y :: rest => if (x <? y)%Z then x :: xs else y :: insert_Z x rest
  end.

(** [sorted(_)] on integers. *)
Definition sorted_list (xs : list Z) : list Z := fold_right insert_Z [] xs.

(** [anos = sorted(df.index.year.unique().tolist())]. *)
Definition anos (df : DataFrame) : list Z :=
  sorted_list (unique (map year_of_row df)).

(** [df_year = df.loc[df.index.year == int(ano_sel)]]. *)
Definition df_year (df : DataFrame) (ano_sel : Z) : DataFrame :=
  filter (fun r => (year_of_row r =? ano_sel)%Z) df.

(** [.iloc[0]] and [.iloc[-1]]: [None] is the IndexError on an empty
    series. *)
Definition iloc_first {A} (xs : list A) : option A := hd_error xs.

Definition iloc_last {A} (xs : list A) : option A :=
  match xs with
  | [] => None
  | x :: _ => Some (last xs x)
  end.

(** Truth value of a float in [if first_close]: only zero is false. *)
Definition truthy (c : cell) : bool :=
  match c with Some q => negb (Qc_eqb q 0) | None => true end.

(** [(last_close - first_close) / first_close * 100 if first_close else 0.0]. *)
Definition retorno_pct (first_close last_close : cell) : fval :=
  if truthy first_close
  then fmul (fdiv (fsub (lift last_close) (lift first_close)) (lift first_close))
            (Fin hundred)
  else Fin 0%Qc.

Inductive CandleTab : Type :=
| CandleWarning
| CandleIndexError
| Candle (first_close last_close : cell) (retorno : fval) (rows : DataFrame).

(** The body of [with tab_candle:] for the selected year. *)
Definition candle_tab (df : DataFrame) (ano_sel : Z) : CandleTab :=
  let dy := df_year df ano_sel in
  if is_empty dy || is_empty (present (map Close dy)) then CandleWarning
  else
    match iloc_first (map Close dy), iloc_last (map Close dy) with
    | Some first_close, Some last_close =>
        Candle first_close last_close (retorno_pct first_close last_close) dy
    | _, _ => CandleIndexError
    end.

(** The year the select box shows first: [index=len(anos)-1]. *)
Definition default_ano (df : DataFrame) : option Z := iloc_last (anos df).

(** ** The page up to the KPIs (lines 79-127) *)

(** The three places where the script stops: [st.error] after loading,
    [st.warning] after the date slice, [st.warning] after resampling. *)
Inductive Stop : Type := LoadFailed | EmptyRange | EmptyMetric.

Record Kpis : Type := mkKpis {
  primeiro : Qc;
  ultimo : Qc;
  kpi_var_pct : fval
}.

Inductive PageResult : Type :=
| Stopped (s : Stop)
| IndexError
| Shown (df : DataFrame) (values : list (Z * Qc)) (k : Kpis).

(** The KPI block: [None] is the IndexError of [iloc] on an empty
    series. *)
Definition kpis (values : list Qc) : option Kpis :=
  match iloc_last values, iloc_first values, var_pct values with
  | Some u, Some p, Some v => Some (mkKpis p u v)
  | _, _, _ => None
  end.

(** The script from the loaded frame to the KPIs. *)
Definition page_from (loaded : DataFrame) (f : Freq) (m : Metric)
           (dt_ini dt_fim : Z) : PageResult :=
  if is_empty loaded then Stopped LoadFailed
  else
    let df := loc_dates loaded dt_ini dt_fim in
    if is_empty df then Stopped EmptyRange
    else
      let s := serie f m df in
      if is_empty s then Stopped EmptyMetric
      else
        match kpis (map snd s) with
        | Some k => Shown df s k
        | None => IndexError
        end.

Section Page.

Variable to_datetime : string -> option Timestamp.
Variable to_numeric : string -> cell.

Definition page (csv : list RawRow) (f : Freq) (m : Metric)
           (dt_ini dt_fim : Z) : PageResult :=
  page_from (load_data to_datetime to_numeric csv) f m dt_ini dt_fim.

End Page.

(** ** Sample frames *)

(** A row with a close price and a volume only. *)
Definition sample_row (t : Timestamp) (close : Qc) (volume : option Qc) : Row :=
  mkRow t None None None (Some close) volume.

(** Three consecutive days with closes 1, 2, 3. *)
Definition three_days : DataFrame :=
  [ sample_row (at_date 2020 1 1) (of_Z 1) (Some (of_Z 10));
    sample_row (at_date 2020 1 2) (of_Z 2) (Some (of_Z 20));
    sample_row (at_date 2020 1 3) (of_Z 3) (Some (of_Z 30)) ].

(** Three days of one month with volumes 10, 20, 30. *)
Definition january : DataFrame :=
  [ sample_row (at_date 2020 1 1) (of_Z 1) (Some (of_Z 10));
    sample_row (at_date 2020 1 15) (of_Z 2) (Some (of_Z 20));
    sample_row (at_time 2020 1 31 3600) (of_Z 3) (Some (of_Z 30)) ].

(** Two rows a day apart from each other: no row on 2020-01-02. *)
Definition gap_day : DataFrame :=
  [ sample_row (at_date 2020 1 1) (of_Z 1) (Some (of_Z 10));
    sample_row (at_date 2020 1 3) (of_Z 2) (Some (of_Z 20)) ].

(** Two rows of one month; the opening price of the later one is
    missing. *)
Definition open_missing : DataFrame :=
  [ mkRow (at_date 2020 1 1) (Some (of_Z 5)) None None (Some (of_Z 1)) None;
    mkRow (at_date 2020 1 2) None None None (Some (of_Z 2)) None ].

(** The last days of two consecutive months, with closes 100 and 110. *)
Definition two_months : DataFrame :=
  [ sample_row (at_date 2020 1 31) (of_Z 100) (Some (of_Z 10));
    sample_row (at_date 2020 2 29) (of_Z 110) None ].

(** Four days with closes 3, 1, 1, 5. *)
Definition zigzag : DataFrame :=
  [ sample_row (at_date 2020 1 1) (of_Z 3) None;
    sample_row (at_date 2020 1 2) (of_Z 1) None;
    sample_row (at_date 2020 1 3) (of_Z 1) None;
    sample_row (at_date 2020 1 4) (of_Z 5) None ].

(** Parsers that know two dates and two numbers, for sample files. *)
Definition sample_to_datetime (s : string) : option Timestamp :=
  if String.eqb s "2020-01-01" then Some (at_date 2020 1 1)
  else if String.eqb s "2020-01-02" then Some (at_date 2020 1 2)
  else None.

Definition sample_to_numeric (s : string) : option Qc :=
  if String.eqb s "10" then Some (of_Z 10)
  else if String.eqb s "20" then Some (of_Z 20)
  else None.

(** A file of three lines: the second has no readable close price. *)
Definition sample_csv : list RawRow :=
  [ mkRaw "2020-01-02" "10" "20" "10" "20" "10";
    mkRaw "2020-01-02" "10" "20" "10" "n/a" "10";
    mkRaw "2020-01-01" "10" "10" "10" "10" "?" ]%string.

(** Equality of two concrete rationals, after evaluation. *)
Ltac qc_eq := apply Qc_is_canon; vm_compute; reflexivity.

(** * Properties *)

(** ** Facts about the numbers *)

Section NumFacts.

Lemma Qc_eqb_eq (a b : Qc) : Qc_eqb a b = true <-> a = b.
Proof.
  unfold Qc_eqb. rewrite Qeq_bool_iff. split.
  - apply Qc_is_canon.
  - intros ->. reflexivity.
Qed.

Lemma Qc_eqb_neq (a b : Qc) : Qc_eqb a b = false <-> a <> b.
Proof.
  rewrite <- Qc_eqb_eq. destruct (Qc_eqb a b); split; congruence.
Qed.

Lemma Qc_leb_le (a b : Qc) : Qc_leb a b = true <-> (a <= b)%Qc.
Proof. unfold Qc_leb, Qcle. apply Qle_bool_iff. Qed.

Lemma Qc_ltb_lt (a b : Qc) : Qc_ltb a b = true <-> (a < b)%Qc.
Proof.
  unfold Qc_ltb, Qclt. rewrite negb_true_iff.
  destruct (Qle_bool b a) eqn:E.
  - apply Qle_bool_iff in E. split; [discriminate|].
    intros H. exfalso. exact (Qlt_not_le _ _ H E).
  - split; [intros _|reflexivity].
    apply Qnot_le_lt. intros H. apply Qle_bool_iff in H. congruence.
Qed.

Lemma inf_of_sign_nonzero (q : Qc) : q <> 0%Qc -> is_inf (inf_of_sign q) = true.
Proof.
  intros H. unfold inf_of_sign.
  apply Qc_eqb_neq in H. rewrite H.
  destruct (Qc_ltb 0 q); reflexivity.
Qed.

Lemma is_inf_times_hundred (v : fval) :
  is_inf v = true -> fmul v (Fin hundred) = v.
Proof. destruct v; simpl; try congruence; reflexivity. Qed.

End NumFacts.

(** ** Facts about lists *)

Section ListFacts.

Context {A B C : Type}.

Lemma nth_error_map2 (f : A -> B -> C) xs ys i :
  nth_error (map2 f xs ys) i =
  match nth_error xs i, nth_error ys i with
  | Some x, Some y => Some (f x y)
  | _, _ => None
  end.
Proof.
  revert ys i. induction xs as [|x xs IH]; intros [|y ys] [|i]; simpl;
    try reflexivity.
  - destruct (nth_error xs i); reflexivity.
  - apply IH.
Qed.

Lemma map2_length (f : A -> B -> C) xs ys :
  List.length (map2 f xs ys) = Nat.min (List.length xs) (List.length ys).
Proof.
  revert ys. induction xs as [|x xs IH]; intros [|y ys]; simpl; auto.
Qed.

Lemma nth_error_removelast (xs : list A) i :
  nth_error (removelast xs) i =
  match nth_error xs (S i) with
  | Some _ => nth_error xs i
  | None => None
  end.
Proof.
  revert i. induction xs as [|x xs IH]; intros i.
  - destruct i; reflexivity.
  - destruct xs as [|y ys].
    + destruct i; reflexivity.
    + change (removelast (x :: y :: ys)) with (x :: removelast (y :: ys)).
      destruct i as [|i].
      * reflexivity.
      * simpl nth_error at 1. rewrite IH. reflexivity.
Qed.

Lemma removelast_length (xs : list A) :
  List.length (removelast xs) = pred (List.length xs).
Proof.
  induction xs as [|x xs IH]; [reflexivity|].
  destruct xs as [|y ys]; [reflexivity|].
  change (removelast (x :: y :: ys)) with (x :: removelast (y :: ys)).
  cbn [List.length] in *. rewrite IH. reflexivity.
Qed.

End ListFacts.

Section ShiftFacts.

Context {A : Type}.

Lemma shift1_length (xs : list (option A)) :
  List.length (shift1 xs) = List.length xs.
Proof.
  destruct xs as [|x xs]; [reflexivity|].
  unfold shift1. cbn [List.length]. rewrite removelast_length.
  reflexivity.
Qed.

Lemma nth_error_shift1_S (xs : list (option A)) i :
  nth_error (shift1 xs) (S i) =
  match nth_error xs (S i) with
  | Some _ => nth_error xs i
  | None => None
  end.
Proof.
  destruct xs as [|x xs]; [reflexivity|].
  unfold shift1. change (nth_error (None :: ?l) (S i)) with (nth_error l i).
  apply nth_error_removelast.
Qed.

Lemma nth_error_shift1_0 (xs : list (option A)) :
  nth_error (shift1 xs) 0 =
  match xs with [] => None | _ :: _ => Some None end.
Proof. destruct xs; reflexivity. Qed.

End ShiftFacts.

(** ** Monthly returns *)

Section Returns.

Lemma pct_point (prev cur : Qc) :
  fmul (fsub (fdiv (Fin cur) (Fin prev)) (Fin 1%Qc)) (Fin hundred)
  = pct_formula prev cur.
Proof.
  unfold pct_formula. simpl.
  destruct (Qc_eqb prev 0) eqn:E.
  - apply Qc_eqb_eq in E. subst prev.
    replace (cur - 0)%Qc with cur by ring.
    unfold inf_of_sign.
    destruct (Qc_eqb cur 0); [reflexivity|].
    destruct (Qc_ltb 0 cur); reflexivity.
  - apply Qc_eqb_neq in E. simpl. f_equal. field. exact E.
Qed.

Lemma pct_formula_finite (prev cur : Qc) :
  prev <> 0%Qc ->
  pct_formula prev cur = Fin ((cur - prev) / prev * hundred)%Qc.
Proof.
  intros H. unfold pct_formula. simpl.
  apply Qc_eqb_neq in H. rewrite H. reflexivity.
Qed.

Lemma pct_formula_zero (cur : Qc) :
  pct_formula 0%Qc cur = inf_of_sign cur.
Proof.
  unfold pct_formula. simpl.
  replace (cur - 0)%Qc with cur by ring.
  destruct (Qc_eqb cur 0) eqn:E.
  - apply Qc_eqb_eq in E. subst. reflexivity.
  - apply Qc_eqb_neq in E.
    apply is_inf_times_hundred, inf_of_sign_nonzero, E.
Qed.

Lemma ret_m_length (xs : list Qc) : List.length (ret_m xs) = List.length xs.
Proof.
  unfold ret_m, pct_change. cbv zeta.
  rewrite length_map, map2_length, shift1_length, length_map.
  apply Nat.min_id.
Qed.

Lemma ret_m_head (x : Qc) (xs : list Qc) :
  nth_error (ret_m (x :: xs)) 0 = Some NaN.
Proof. reflexivity. Qed.

Lemma ret_m_step (xs : list Qc) (i : nat) (prev cur : Qc) :
  nth_error xs i = Some prev ->
  nth_error xs (S i) = Some cur ->
  nth_error (ret_m xs) (S i) = Some (pct_formula prev cur).
Proof.
  intros Hp Hc. unfold ret_m, pct_change. cbv zeta.
  rewrite nth_error_map, nth_error_map2, nth_error_shift1_S.
  rewrite !nth_error_map, Hc, Hp. simpl option_map. cbv iota beta.
  simpl lift. f_equal. apply pct_point.
Qed.

End Returns.

(** ** The monthly return in binary64 *)

Section Returns64.







End Returns64.




(** C3: where the previous close is zero the program does not return
    NaN but an infinite return, for every finite current close other
    than zero: plus infinity for the closes 0 and 5.  Only 0 after 0
    gives NaN. *)
Theorem ret_m64_zero_previous :
  ret_m64 [of_int 0; of_int 5] = [nan64; S754_infinity false] /\
  is_nan64 (S754_infinity false) = false /\
  (forall s sc m e,
      ret_m64 [S754_zero s; S754_finite sc m e]
      = [nan64; S754_infinity (xorb sc s)]) /\
  (forall s sc, ret_m64 [S754_zero s; S754_zero sc] = [nan64; nan64]).
Proof.
  split; [vm_compute; reflexivity|]. split; [reflexivity|]. split.
  - intros s sc m e. destruct s, sc; reflexivity.
  - intros s sc. destruct s, sc; reflexivity.
Qed.

(** ** The range KPI *)

(** C4, as the program has it: over a non-empty [serie] with first value
    [f] and last value [l], [var_pct] is (l - f) / f * 100, the formula
    of the monthly return applied to [f] and [l], when [f] is not 0, and
    it is 0 when [f] is 0. *)
Theorem var_pct_guarded (f : Qc) (rest : list Qc) :
  let l := last (f :: rest) f in
  (f <> 0%Qc ->
   var_pct (f :: rest) = Some (pct_formula f l) /\
   pct_formula f l = Fin ((l - f) / f * hundred)%Qc) /\
  (f = 0%Qc -> var_pct (f :: rest) = Some (Fin 0%Qc)).
Proof.
  intros l. unfold var_pct. fold l. split.
  - intros H. split; [|apply pct_formula_finite, H].
    apply Qc_eqb_neq in H. rewrite H. reflexivity.
  - intros ->. reflexivity.
Qed.

Lemma var_pct_guarded_witness :
  var_pct [of_Z 100; of_Z 5; of_Z 150]
  = Some (pct_formula (of_Z 100) (of_Z 150)) /\
  var_pct [0%Qc; of_Z 5] = Some (Fin 0%Qc).
Proof.
  split.
  - apply (var_pct_guarded (of_Z 100) [of_Z 5; of_Z 150]).
    apply Qc_eqb_neq. reflexivity.
  - apply (var_pct_guarded 0%Qc [of_Z 5]). reflexivity.
Defined.

(** C4 as stated fails: for the series 0, 5 the KPI is the number 0,
    where the formula of the monthly return gives an infinite value. *)
Lemma var_pct_zero_first_default :
  var_pct [0%Qc; of_Z 5] = Some (Fin 0%Qc) /\
  pct_formula 0%Qc (of_Z 5) = PInf /\
  var_pct [0%Qc; of_Z 5] <> Some (pct_formula 0%Qc (of_Z 5)) /\
  var_pct [0%Qc; of_Z 5] <> Some NaN.
Proof.
  repeat split; discriminate.
Qed.

(** ** Crossovers *)

Section Crossovers.

Lemma In_positions_from (mask : list bool) (k i : nat) :
  In i (positions_from k mask) <->
  (k <= i)%nat /\ nth_error mask (i - k) = Some true.
Proof.
  revert k. induction mask as [|b mask IH]; intros k.
  - simpl. split; [tauto|]. intros [_ H]. destruct (i - k)%nat; discriminate.
  - assert (Hrest : In i (positions_from (S k) mask) <->
                    (k < i)%nat /\ nth_error (b :: mask) (i - k) = Some true).
    { rewrite IH. split; intros [Hle Hn]; (split; [lia|]).
      - replace (i - k)%nat with (S (i - S k)) by lia. exact Hn.
      - replace (i - k)%nat with (S (i - S k)) in Hn by lia. exact Hn. }
    destruct b; cbn [positions_from].
    + cbn [In]. rewrite Hrest. split.
      * intros [->|[Hlt Hn]]; [|split; [lia|exact Hn]].
        rewrite Nat.sub_diag. split; [lia|reflexivity].
      * intros [Hle Hn].
        destruct (Nat.eq_dec k i) as [->|Hne]; [left; reflexivity|].
        right. split; [lia|exact Hn].
    + rewrite Hrest. split.
      * intros [Hlt Hn]. split; [lia|exact Hn].
      * intros [Hle Hn]. split; [|exact Hn].
        destruct (Nat.eq_dec k i) as [->|Hne]; [|lia].
        rewrite Nat.sub_diag in Hn. discriminate.
Qed.

Lemma In_select (mask : list bool) (i : nat) :
  In i (select mask) <-> nth_error mask i = Some true.
Proof.
  unfold select. rewrite In_positions_from, Nat.sub_0_r.
  split; [tauto|]. intros H. split; [lia|exact H].
Qed.

Lemma cell_lt_spec (a b : option Qc) :
  cell_lt a b = true <-> exists x y, a = Some x /\ b = Some y /\ (x < y)%Qc.
Proof.
  destruct a as [x|], b as [y|]; simpl.
  - rewrite Qc_ltb_lt. split.
    + intros H. exists x, y. auto.
    + intros (x' & y' & Hx & Hy & H). congruence.
  - split; [discriminate|]. intros (? & ? & _ & H & _). discriminate.
  - split; [discriminate|]. intros (? & ? & H & _). discriminate.
  - split; [discriminate|]. intros (? & ? & H & _). discriminate.
Qed.

Lemma cell_le_spec (a b : option Qc) :
  cell_le a b = true <-> exists x y, a = Some x /\ b = Some y /\ (x <= y)%Qc.
Proof.
  destruct a as [x|], b as [y|]; simpl.
  - rewrite Qc_leb_le. split.
    + intros H. exists x, y. auto.
    + intros (x' & y' & Hx & Hy & H). congruence.
  - split; [discriminate|]. intros (? & ? & _ & H & _). discriminate.
  - split; [discriminate|]. intros (? & ? & H & _). discriminate.
  - split; [discriminate|]. intros (? & ? & H & _). discriminate.
Qed.

(** The previous entries of both series, as the shifted series give
    them at position [i]. *)
Lemma shifted_pair (s l : list (option Qc)) (i : nat) (p q : option Qc) :
  nth_error (shift1 s) i = Some p ->
  nth_error (shift1 l) i = Some q ->
  (exists x y, p = Some x /\ q = Some y) ->
  exists j, i = S j /\ nth_error s j = Some p /\ nth_error l j = Some q.
Proof.
  intros Hs Hl (x & y & -> & ->). destruct i as [|j].
  - rewrite nth_error_shift1_0 in Hs. destruct s; discriminate.
  - exists j. split; [reflexivity|].
    rewrite nth_error_shift1_S in Hs, Hl.
    destruct (nth_error s (S j)); [|discriminate].
    destruct (nth_error l (S j)); [|discriminate].
    split; assumption.
Qed.

Lemma cross_mask_spec (lt_prev le_cur : option Qc -> option Qc -> bool)
      (s l : list (option Qc)) (i : nat) :
  (forall a b, lt_prev a b = true -> exists x y, a = Some x /\ b = Some y) ->
  nth_error (map2 andb (map2 lt_prev (shift1 s) (shift1 l))
                       (map2 le_cur s l)) i = Some true <->
  exists j p q c d,
    i = S j /\ nth_error s j = Some p /\ nth_error l j = Some q /\
    nth_error s i = Some c /\ nth_error l i = Some d /\
    lt_prev p q = true /\ le_cur c d = true.
Proof.
  intros Hdef. rewrite !nth_error_map2. split.
  - destruct (nth_error (shift1 s) i) as [p|] eqn:Hp; [|discriminate].
    destruct (nth_error (shift1 l) i) as [q|] eqn:Hq; [|discriminate].
    destruct (nth_error s i) as [c|] eqn:Hc; [|discriminate].
    destruct (nth_error l i) as [d|] eqn:Hd; [|discriminate].
    intros H. injection H as H. apply andb_true_iff in H as [H1 H2].
    destruct (shifted_pair s l i p q Hp Hq (Hdef _ _ H1)) as (j & -> & Hsj & Hlj).
    exists j, p, q, c, d. repeat split; assumption.
  - intros (j & p & q & c & d & -> & Hsj & Hlj & Hc & Hd & H1 & H2).
    rewrite !nth_error_shift1_S, Hc, Hd, Hsj, Hlj, H1, H2. reflexivity.
Qed.

Lemma up_crossing_iff (s l : list (option Qc)) (i : nat) :
  In i (up_crossings s l) <->
  exists j a b c d,
    i = S j /\
    nth_error s j = Some (Some a) /\ nth_error l j = Some (Some b) /\
    nth_error s i = Some (Some c) /\ nth_error l i = Some (Some d) /\
    (a < b)%Qc /\ (d <= c)%Qc.
Proof.
  unfold up_crossings, fillna_false, cross_up. rewrite In_select.
  rewrite cross_mask_spec.
  - split.
    + intros (j & p & q & c & d & Hi & Hsj & Hlj & Hc & Hd & H1 & H2).
      apply cell_lt_spec in H1 as (a & b & -> & -> & Hab).
      apply cell_le_spec in H2 as (d' & c' & -> & -> & Hdc).
      exists j, a, b, c', d'. repeat split; assumption.
    + intros (j & a & b & c & d & Hi & Hsj & Hlj & Hc & Hd & Hab & Hdc).
      exists j, (Some a), (Some b), (Some c), (Some d).
      repeat split; try assumption.
      * apply cell_lt_spec. eauto.
      * apply cell_le_spec. eauto.
  - intros a b H. apply cell_lt_spec in H as (x & y & -> & -> & _). eauto.
Qed.

Lemma down_crossing_iff (s l : list (option Qc)) (i : nat) :
  In i (down_crossings s l) <->
  exists j a b c d,
    i = S j /\
    nth_error s j = Some (Some a) /\ nth_error l j = Some (Some b) /\
    nth_error s i = Some (Some c) /\ nth_error l i = Some (Some d) /\
    (b < a)%Qc /\ (c <= d)%Qc.
Proof.
  unfold down_crossings, fillna_false, cross_dn. rewrite In_select.
  rewrite (cross_mask_spec (fun s0 l0 => cell_lt l0 s0) cell_le).
  - split.
    + intros (j & p & q & c & d & Hi & Hsj & Hlj & Hc & Hd & H1 & H2).
      apply cell_lt_spec in H1 as (b & a & -> & -> & Hab).
      apply cell_le_spec in H2 as (c' & d' & -> & -> & Hdc).
      exists j, a, b, c', d'. repeat split; assumption.
    + intros (j & a & b & c & d & Hi & Hsj & Hlj & Hc & Hd & Hab & Hdc).
      exists j, (Some a), (Some b), (Some c), (Some d).
      repeat split; try assumption.
      * apply cell_lt_spec. eauto.
      * apply cell_le_spec. eauto.
  - intros a b H. apply cell_lt_spec in H as (x & y & -> & -> & _). eauto.
Qed.

End Crossovers.

(** C2: position [i] is an up-crossing exactly when both averages are
    numbers at [i-1] and at [i], the short one is below the long one at
    [i-1] and at or above it at [i]; a down-crossing exactly when it is
    above at [i-1] and at or below at [i].  Position 0 is in neither
    set, nor is a position where one of the averages has no number at
    [i] or at [i-1].  For 1, 3, 5 against 4, 4, 4 the up-crossings are
    position 2 alone and there is no down-crossing. *)
Theorem crossover_events_exact :
  (forall s l i,
      In i (up_crossings s l) <->
      exists j a b c d,
        i = S j /\
        nth_error s j = Some (Some a) /\ nth_error l j = Some (Some b) /\
        nth_error s i = Some (Some c) /\ nth_error l i = Some (Some d) /\
        (a < b)%Qc /\ (d <= c)%Qc) /\
  (forall s l i,
      In i (down_crossings s l) <->
      exists j a b c d,
        i = S j /\
        nth_error s j = Some (Some a) /\ nth_error l j = Some (Some b) /\
        nth_error s i = Some (Some c) /\ nth_error l i = Some (Some d) /\
        (b < a)%Qc /\ (c <= d)%Qc) /\
  (forall s l, ~ In 0%nat (up_crossings s l) /\ ~ In 0%nat (down_crossings s l)) /\
  (forall s l i,
      undefined_at s i \/ undefined_at l i \/
      undefined_at s (pred i) \/ undefined_at l (pred i) ->
      ~ In i (up_crossings s l) /\ ~ In i (down_crossings s l)) /\
  up_crossings (map (@Some Qc) [of_Z 1; of_Z 3; of_Z 5])
               (map (@Some Qc) [of_Z 4; of_Z 4; of_Z 4]) = [2%nat] /\
  down_crossings (map (@Some Qc) [of_Z 1; of_Z 3; of_Z 5])
                 (map (@Some Qc) [of_Z 4; of_Z 4; of_Z 4]) = [].
Proof.
  split; [exact up_crossing_iff|].
  split; [exact down_crossing_iff|].
  split.
  { intros s l. split; intros H;
      [apply up_crossing_iff in H|apply down_crossing_iff in H];
      destruct H as (j & a & b & c & d & Hi & _); discriminate. }
  split; [|split; reflexivity].
  intros s l i Hund. split; intros H;
    [apply up_crossing_iff in H|apply down_crossing_iff in H];
    destruct H as (j & a & b & c & d & -> & Hsj & Hlj & Hc & Hd & _);
    simpl pred in Hund;
    destruct Hund as [U|[U|[U|U]]]; eapply U; eassumption.
Qed.

Lemma crossover_events_exact_witness :
  ~ In 1%nat (up_crossings [None; Some (of_Z 5)] [Some (of_Z 4); Some (of_Z 4)]) /\
  ~ In 1%nat (down_crossings [None; Some (of_Z 5)] [Some (of_Z 4); Some (of_Z 4)]).
Proof.
  destruct crossover_events_exact as (_ & _ & _ & H & _).
  apply (H [None; Some (of_Z 5)] [Some (of_Z 4); Some (of_Z 4)] 1%nat).
  right. right. left. intros x. simpl. discriminate.
Defined.

(** C10: a position that is an up-crossing is not a down-crossing (and
    so the other way round): the two sets share no position. *)
Theorem crossings_disjoint (s l : list (option Qc)) (i : nat) :
  In i (up_crossings s l) -> ~ In i (down_crossings s l).
Proof.
  intros Hu Hd.
  apply up_crossing_iff in Hu as (j & a & b & c & d & -> & Hsj & Hlj & _ & _ & Hab & _).
  apply down_crossing_iff in Hd as (j' & a' & b' & c' & d' & Hj & Hsj' & Hlj' & _ & _ & Hba & _).
  injection Hj as <-.
  rewrite Hsj in Hsj'. rewrite Hlj in Hlj'.
  injection Hsj' as <-. injection Hlj' as <-.
  exact (Qclt_not_le _ _ Hab (Qclt_le_weak _ _ Hba)).
Qed.

Lemma crossings_disjoint_witness :
  In 2%nat (up_crossings (map (@Some Qc) [of_Z 1; of_Z 3; of_Z 5])
                         (map (@Some Qc) [of_Z 4; of_Z 4; of_Z 4])) /\
  ~ In 2%nat (down_crossings (map (@Some Qc) [of_Z 1; of_Z 3; of_Z 5])
                             (map (@Some Qc) [of_Z 4; of_Z 4; of_Z 4])).
Proof.
  split.
  - left. reflexivity.
  - apply crossings_disjoint. left. reflexivity.
Defined.

(** ** The moving-average tab *)

(** C5: when the short window is not smaller than the long one the tab
    shows the warning and nothing else: no moving average and no
    crossover is computed.  Otherwise the averages are computed with the
    two window sizes as they were entered. *)
Theorem short_window_rejected (df : DataFrame) (win_short win_long : nat) :
  ((win_long <= win_short)%nat ->
   moving_average_tab df win_short win_long = Warning short_window_warning /\
   forall ma, moving_average_tab df win_short win_long <> Chart ma) /\
  ((win_short < win_long)%nat ->
   exists ma,
     moving_average_tab df win_short win_long = Chart ma /\
     mm_curta ma = rolling_close win_short df /\
     mm_longa ma = rolling_close win_long df /\
     ma_up ma = up_crossings (mm_curta ma) (mm_longa ma) /\
     ma_dn ma = down_crossings (mm_curta ma) (mm_longa ma)).
Proof.
  unfold moving_average_tab. split; intros H.
  - apply Nat.leb_le in H. rewrite H. split; [reflexivity|discriminate].
  - apply Nat.leb_gt in H. rewrite H. eexists. repeat split.
Qed.

Lemma short_window_rejected_witness :
  moving_average_tab [] 30 30 = Warning short_window_warning /\
  exists ma, moving_average_tab [] 7 30 = Chart ma.
Proof.
  split.
  - apply (short_window_rejected [] 30 30). lia.
  - destruct (proj2 (short_window_rejected [] 7 30)) as (ma & H & _); [lia|].
    exists ma. exact H.
Defined.

(** ** Rolling means *)

Section Rolling.

Lemma qsum_from (qs : list Qc) (a : Qc) :
  fold_left Qcplus qs a = (a + qsum qs)%Qc.
Proof.
  unfold qsum. revert a. induction qs as [|q qs IH]; intros a; simpl.
  - ring.
  - rewrite IH, (IH (0 + q)%Qc). ring.
Qed.

Lemma qsum_cons (q : Qc) (qs : list Qc) : qsum (q :: qs) = (q + qsum qs)%Qc.
Proof.
  unfold qsum at 1. simpl. rewrite qsum_from. ring.
Qed.

Lemma present_all (xs : list Qc) : present (map (@Some Qc) xs) = xs.
Proof.
  induction xs as [|x xs IH]; simpl; [reflexivity|]. f_equal. exact IH.
Qed.

Lemma present_app (xs ys : list (option Qc)) :
  present (xs ++ ys) = present xs ++ present ys.
Proof. unfold present. apply flat_map_app. Qed.

Lemma window_all (w i : nat) (xs : list Qc) :
  window w i (map (@Some Qc) xs)
  = map (@Some Qc) (skipn (S i - w) (firstn (S i) xs)).
Proof.
  unfold window. rewrite firstn_map, skipn_map. reflexivity.
Qed.

Lemma skipn_nth {A} (d : A) (n : nat) (l : list A) :
  (n < List.length l)%nat -> skipn n l = nth n l d :: skipn (S n) l.
Proof.
  revert l. induction n as [|n IH]; intros [|x l] H; simpl in H; try lia.
  - reflexivity.
  - change (skipn (S n) (x :: l)) with (skipn n l).
    change (skipn (S (S n)) (x :: l)) with (skipn (S n) l).
    change (nth (S n) (x :: l) d) with (nth n l d).
    apply IH. lia.
Qed.

Lemma nth_firstn {A} (d : A) (n k : nat) (l : list A) :
  (n < k)%nat -> nth n (firstn k l) d = nth n l d.
Proof.
  revert k l. induction n as [|n IH]; intros [|k] [|x l] H; simpl;
    try lia; try reflexivity.
  apply IH. lia.
Qed.

(** The sum over the window is the sum of the [k] latest values. *)
Lemma qsum_window (xs : list Qc) (i k : nat) :
  (i < List.length xs)%nat -> (k <= S i)%nat ->
  qsum (skipn (S i - k) (firstn (S i) xs)) = sum_back k i xs.
Proof.
  intros Hi. induction k as [|k IH]; intros Hk.
  - rewrite Nat.sub_0_r, skipn_all2; [reflexivity|].
    rewrite length_firstn. lia.
  - replace (S i - S k)%nat with (i - k)%nat by lia.
    rewrite (skipn_nth 0%Qc); [|rewrite length_firstn; lia].
    rewrite qsum_cons, nth_firstn by lia.
    replace (S (i - k)) with (S i - k)%nat by lia.
    rewrite IH by lia. reflexivity.
Qed.

Lemma window_length (xs : list Qc) (w i : nat) :
  (i < List.length xs)%nat ->
  List.length (skipn (S i - w) (firstn (S i) xs)) = Nat.min (S i) w.
Proof.
  intros Hi. rewrite length_skipn, length_firstn. lia.
Qed.

Lemma nth_error_seq_0 (n i : nat) :
  (i < n)%nat -> nth_error (seq 0 n) i = Some i.
Proof.
  intros H. rewrite (nth_error_nth' _ 0%nat) by (rewrite length_seq; lia).
  rewrite seq_nth by lia. reflexivity.
Qed.

Lemma nth_error_rolling (w m : nat) (cs : list (option Qc)) (i : nat) :
  (i < List.length cs)%nat ->
  nth_error (rolling_mean w m cs) i = Some (roll_mean_at w m cs i).
Proof.
  intros H. unfold rolling_mean.
  apply map_nth_error, nth_error_seq_0, H.
Qed.

(** One entry over a series without missing values. *)
Lemma roll_mean_at_all (w m : nat) (xs : list Qc) (i : nat) :
  (i < List.length xs)%nat ->
  roll_mean_at w m (map (@Some Qc) xs) i
  = if ((m <=? Nat.min (S i) w) && (0 <? Nat.min (S i) w))%nat
    then Some (mean_latest (Nat.min (S i) w) i xs)
    else None.
Proof.
  intros Hi. unfold roll_mean_at. cbv zeta.
  rewrite window_all, present_all, window_length by exact Hi.
  destruct ((m <=? Nat.min (S i) w) && (0 <? Nat.min (S i) w))%nat;
    [|reflexivity].
  unfold mean_latest. do 2 f_equal.
  destruct (Nat.le_ge_cases (S i) w) as [H|H].
  - rewrite Nat.min_l by exact H.
    replace (S i - w)%nat with (S i - S i)%nat by lia.
    apply qsum_window; [exact Hi|lia].
  - rewrite Nat.min_r by exact H. apply qsum_window; [exact Hi|exact H].
Qed.

Lemma rolling_min_periods_1 (w : nat) (xs : list Qc) (i : nat) :
  (1 <= w)%nat -> (i < List.length xs)%nat ->
  nth_error (rolling_mean w 1 (map (@Some Qc) xs)) i
  = Some (Some (mean_latest (Nat.min (S i) w) i xs)).
Proof.
  intros Hw Hi.
  rewrite nth_error_rolling by (rewrite length_map; exact Hi).
  rewrite roll_mean_at_all by exact Hi.
  replace (1 <=? Nat.min (S i) w)%nat with true
    by (symmetry; apply Nat.leb_le; lia).
  replace (0 <? Nat.min (S i) w)%nat with true
    by (symmetry; apply Nat.ltb_lt; lia).
  reflexivity.
Qed.

Lemma rolling_full_window (w : nat) (xs : list Qc) (i : nat) :
  (1 <= w)%nat -> (i < List.length xs)%nat ->
  nth_error (rolling_mean w w (map (@Some Qc) xs)) i
  = Some (if (S i <? w)%nat then None else Some (mean_latest w i xs)).
Proof.
  intros Hw Hi.
  rewrite nth_error_rolling by (rewrite length_map; exact Hi).
  rewrite roll_mean_at_all by exact Hi. f_equal.
  destruct (S i <? w)%nat eqn:E.
  - apply Nat.ltb_lt in E.
    replace (w <=? Nat.min (S i) w)%nat with false
      by (symmetry; apply Nat.leb_gt; lia).
    reflexivity.
  - apply Nat.ltb_ge in E. rewrite Nat.min_r by exact E.
    rewrite Nat.leb_refl.
    replace (0 <? w)%nat with true by (symmetry; apply Nat.ltb_lt; lia).
    reflexivity.
Qed.

End Rolling.

(** C1, as the program has it: over a series without missing values
    and for a window of at least 1, the rolling mean with
    [min_periods=1] has at every position [i] the mean of the latest
    min(i+1, window) values, and so has the 30-day volume average; the
    rolling mean without [min_periods], which the two moving averages of
    the closing price use, is NaN at the positions before the first
    full window and the mean of the latest [window] values from there
    on. *)
Theorem rolling_mean_by_min_periods (xs : list Qc) (w i : nat) :
  (1 <= w)%nat -> (i < List.length xs)%nat ->
  nth_error (rolling_mean w 1 (map (@Some Qc) xs)) i
  = Some (Some (mean_latest (Nat.min (S i) w) i xs)) /\
  nth_error (rolling_mean w w (map (@Some Qc) xs)) i
  = Some (if (S i <? w)%nat then None else Some (mean_latest w i xs)) /\
  (forall df, map Volume df = map (@Some Qc) xs ->
     nth_error (vol_ma df) i
     = Some (Some (mean_latest (Nat.min (S i) 30) i xs))) /\
  (forall df, map Close df = map (@Some Qc) xs ->
     nth_error (rolling_close w df) i
     = Some (if (S i <? w)%nat then None else Some (mean_latest w i xs))).
Proof.
  intros Hw Hi.
  split; [apply rolling_min_periods_1; assumption|].
  split; [apply rolling_full_window; assumption|].
  split; intros df Hdf.
  - unfold vol_ma. rewrite Hdf. apply rolling_min_periods_1; [lia|exact Hi].
  - unfold rolling_close. rewrite Hdf. apply rolling_full_window; assumption.
Qed.

Lemma rolling_mean_by_min_periods_witness :
  nth_error (rolling_mean 2 1 (map (@Some Qc) [of_Z 1; of_Z 2; of_Z 4])) 0
  = Some (Some (mean_latest 1 0 [of_Z 1; of_Z 2; of_Z 4])) /\
  nth_error (rolling_mean 2 2 (map (@Some Qc) [of_Z 1; of_Z 2; of_Z 4])) 0
  = Some None.
Proof.
  destruct (rolling_mean_by_min_periods [of_Z 1; of_Z 2; of_Z 4] 2 0)
    as (H1 & H2 & _); [lia|simpl; lia|].
  split; [exact H1|exact H2].
Defined.

(** C1 as stated fails: the 2-day moving average of the closes 1, 2, 3
    has no value at position 0, where the mean of the one value
    available is 1. *)
Lemma rolling_close_partial_window_nan :
  map Close three_days = map (@Some Qc) [of_Z 1; of_Z 2; of_Z 3] /\
  nth_error (rolling_close 2 three_days) 0 = Some None /\
  nth_error (rolling_close 2 three_days) 0
  <> Some (Some (mean_latest (Nat.min 1 2) 0 [of_Z 1; of_Z 2; of_Z 3])).
Proof.
  repeat split. discriminate.
Qed.

(** ** Loading *)

Section Sorting.

Lemma insert_row_perm (r : Row) (df : DataFrame) :
  Permutation (insert_row r df) (r :: df).
Proof.
  induction df as [|x df IH]; simpl.
  - apply Permutation_refl.
  - destruct (open_time r <=? open_time x)%Z.
    + apply Permutation_refl.
    + apply perm_trans with (x :: r :: df).
      * apply perm_skip, IH.
      * apply perm_swap.
Qed.

Lemma sort_values_perm (df : DataFrame) : Permutation (sort_values df) df.
Proof.
  induction df as [|r df IH]; simpl.
  - apply perm_nil.
  - apply perm_trans with (r :: sort_values df).
    + apply insert_row_perm.
    + apply perm_skip, IH.
Qed.

Lemma insert_row_sorted (r : Row) (df : DataFrame) :
  sorted_by_time df -> sorted_by_time (insert_row r df).
Proof.
  unfold sorted_by_time. induction 1 as [|x df Hs IH Hall]; simpl.
  - constructor; constructor.
  - destruct (open_time r <=? open_time x)%Z eqn:E.
    + apply Z.leb_le in E. constructor.
      * constructor; assumption.
      * constructor; [exact E|].
        eapply Forall_impl; [|exact Hall].
        unfold time_le. intros y Hy. lia.
    + apply Z.leb_gt in E. constructor; [exact IH|].
      apply (Permutation_Forall (Permutation_sym (insert_row_perm r df))).
      constructor; [unfold time_le; lia|exact Hall].
Qed.

Lemma sort_values_sorted (df : DataFrame) : sorted_by_time (sort_values df).
Proof.
  induction df as [|r df IH]; simpl.
  - constructor.
  - apply insert_row_sorted, IH.
Qed.

(** A frame that is ascending already, ties included, is left as it
    is. *)
Lemma sort_values_sorted_id (df : DataFrame) :
  sorted_by_time df -> sort_values df = df.
Proof.
  unfold sorted_by_time. induction 1 as [|x df Hs IH Hall]; [reflexivity|].
  cbn [sort_values fold_right]. fold (sort_values df). rewrite IH.
  destruct df as [|y df']; [reflexivity|].
  cbn [insert_row]. apply Forall_inv in Hall. unfold time_le in Hall.
  apply Z.leb_le in Hall. rewrite Hall. reflexivity.
Qed.

Lemma In_filter_map {A B} (f : A -> option B) (xs : list A) (y : B) :
  In y (filter_map f xs) <-> exists x, In x xs /\ f x = Some y.
Proof.
  induction xs as [|x xs IH]; simpl.
  - split; [tauto|]. intros (? & [] & _).
  - destruct (f x) as [y'|] eqn:E; simpl; rewrite IH; split.
    + intros [<-|(x' & Hin & Hf)]; eauto.
    + intros (x' & [<-|Hin] & Hf); [left; congruence|eauto].
    + intros (x' & Hin & Hf). eauto.
    + intros (x' & [<-|Hin] & Hf); [congruence|eauto].
Qed.

Lemma filter_map_filter {A B} (f : A -> option B) (p : A -> bool) (xs : list A) :
  (forall x, p x = false -> f x = None) ->
  filter_map f (filter p xs) = filter_map f xs.
Proof.
  intros H. induction xs as [|x xs IH]; simpl; [reflexivity|].
  destruct (p x) eqn:E; simpl.
  - rewrite IH. reflexivity.
  - rewrite (H x E). exact IH.
Qed.

Lemma filter_map_length_all {A B} (f : A -> option B) (xs : list A) :
  Forall (fun x => f x <> None) xs ->
  List.length (filter_map f xs) = List.length xs.
Proof.
  induction 1 as [|x xs Hx _ IH]; simpl; [reflexivity|].
  destruct (f x); [simpl; congruence|congruence].
Qed.

End Sorting.

Section LoadFacts.

Variable to_datetime : string -> option Timestamp.
Variable to_numeric : string -> option Qc.

Local Abbreviation load := (load_data to_datetime to_numeric).
Local Abbreviation ok := (parses to_datetime to_numeric).
Local Abbreviation clean := (clean_row to_datetime to_numeric).

Lemma clean_ok (r : RawRow) : ok r = false -> clean r = None.
Proof.
  unfold parses, clean_row, dropna_time_close, coerce. simpl.
  destruct (to_datetime (raw_open_time r)); [|reflexivity].
  destruct (to_numeric (raw_close r)); [discriminate|reflexivity].
Qed.

Lemma clean_some (r : RawRow) : ok r = true -> clean r <> None.
Proof.
  unfold parses, clean_row, dropna_time_close, coerce. simpl.
  destruct (to_datetime (raw_open_time r)); [|discriminate].
  destruct (to_numeric (raw_close r)); discriminate.
Qed.

Lemma clean_inv (r : RawRow) (row : Row) :
  clean r = Some row ->
  to_datetime (raw_open_time r) = Some (open_time row) /\
  exists c, to_numeric (raw_close r) = Some c /\ Close row = Some c.
Proof.
  unfold clean_row, dropna_time_close, coerce. simpl.
  destruct (to_datetime (raw_open_time r)) as [t|]; [|discriminate].
  destruct (to_numeric (raw_close r)) as [c|]; [|discriminate].
  intros H. injection H as <-. simpl. eauto.
Qed.

Lemma filter_map_map {A B X} (g : A -> B) (f : B -> option X) (xs : list A) :
  filter_map f (map g xs) = filter_map (fun x => f (g x)) xs.
Proof.
  induction xs as [|x xs IH]; simpl; [reflexivity|].
  rewrite IH. reflexivity.
Qed.

Lemma load_perm (csv : list RawRow) :
  Permutation (load csv) (filter_map clean (filter ok csv)).
Proof.
  unfold load_data. rewrite filter_map_map.
  rewrite (filter_map_filter clean ok csv clean_ok).
  apply sort_values_perm.
Qed.

(** C8: the frame that [load_data] returns is ascending by time; each of
    its rows comes from a line of the file whose time and close price
    both parsed, and carries these two parsed values; the rows are, up
    to order, exactly the lines that parse, one row per such line.  The
    function returns a frame for every file content, and nothing but its
    argument enters the result. *)
Theorem load_data_sorted_clean (csv : list RawRow) :
  sorted_by_time (load csv) /\
  Forall (fun row =>
            exists raw c,
              In raw csv /\
              to_datetime (raw_open_time raw) = Some (open_time row) /\
              to_numeric (raw_close raw) = Some c /\
              Close row = Some c)
         (load csv) /\
  Permutation (load csv) (filter_map clean (filter ok csv)) /\
  List.length (load csv) = List.length (filter ok csv).
Proof.
  split; [apply sort_values_sorted|].
  split; [|split; [apply load_perm|]].
  - apply Forall_forall. intros row Hin.
    apply (Permutation_in _ (load_perm csv)) in Hin.
    apply In_filter_map in Hin as (raw & Hraw & Hclean).
    apply filter_In in Hraw as [Hraw _].
    destruct (clean_inv raw row Hclean) as (Ht & c & Hc & Hrow).
    exists raw, c. auto.
  - rewrite (Permutation_length (load_perm csv)).
    apply filter_map_length_all. apply Forall_forall.
    intros r Hr. apply filter_In in Hr as [_ Hr]. apply clean_some, Hr.
Qed.

End LoadFacts.

(** ** The date slice *)

Section Slice.

Lemma day_of_mono (t u : Timestamp) : (t <= u)%Z -> (day_of t <= day_of u)%Z.
Proof.
  intros H. unfold day_of, ns_per_day. apply Z.div_le_mono; lia.
Qed.

Lemma day_range_iff (d0 d1 : Z) (t : Timestamp) :
  (day_start d0 <= t <= day_end d1)%Z <-> (d0 <= day_of t <= d1)%Z.
Proof.
  unfold day_start, day_end, day_of, ns_per_day.
  pose proof (Z.div_mod t 86400000000000 ltac:(lia)) as E.
  pose proof (Z.mod_pos_bound t 86400000000000 ltac:(lia)) as B.
  lia.
Qed.

Lemma fold_min_le (ts : list Z) (a : Z) :
  (fold_left Z.min ts a <= a)%Z /\
  Forall (fun t => (fold_left Z.min ts a <= t)%Z) ts.
Proof.
  revert a. induction ts as [|t ts IH]; intros a; simpl.
  - split; [lia|constructor].
  - destruct (IH (Z.min a t)) as [H1 H2]. split; [lia|].
    constructor; [lia|exact H2].
Qed.

Lemma fold_max_ge (ts : list Z) (a : Z) :
  (a <= fold_left Z.max ts a)%Z /\
  Forall (fun t => (t <= fold_left Z.max ts a)%Z) ts.
Proof.
  revert a. induction ts as [|t ts IH]; intros a; simpl.
  - split; [lia|constructor].
  - destruct (IH (Z.max a t)) as [H1 H2]. split; [lia|].
    constructor; [lia|exact H2].
Qed.

Lemma index_min_le (df : DataFrame) (lo : Timestamp) :
  index_min df = Some lo -> Forall (fun r => (lo <= open_time r)%Z) df.
Proof.
  destruct df as [|r rest]; [discriminate|]. simpl. intros H.
  injection H as <-.
  destruct (fold_min_le (map open_time rest) (open_time r)) as [H1 H2].
  constructor; [exact H1|]. rewrite Forall_map in H2. exact H2.
Qed.

Lemma index_max_ge (df : DataFrame) (hi : Timestamp) :
  index_max df = Some hi -> Forall (fun r => (open_time r <= hi)%Z) df.
Proof.
  destruct df as [|r rest]; [discriminate|]. simpl. intros H.
  injection H as <-.
  destruct (fold_max_ge (map open_time rest) (open_time r)) as [H1 H2].
  constructor; [exact H1|]. rewrite Forall_map in H2. exact H2.
Qed.

Lemma filter_none {A} (p : A -> bool) (xs : list A) :
  Forall (fun x => p x = false) xs -> filter p xs = [].
Proof.
  induction 1 as [|x xs Hx _ IH]; simpl; [reflexivity|].
  rewrite Hx. exact IH.
Qed.

Lemma filter_all {A} (p : A -> bool) (xs : list A) :
  Forall (fun x => p x = true) xs -> filter p xs = xs.
Proof.
  induction 1 as [|x xs Hx _ IH]; simpl; [reflexivity|].
  rewrite Hx, IH. reflexivity.
Qed.

Variables t0 t1 : Timestamp.

Local Abbreviation before := (fun r : Row => (open_time r <? t0)%Z).
Local Abbreviation upto := (fun r : Row => (open_time r <=? t1)%Z).

(** Behind a row that is past the end of the range, no row is in it. *)
Lemma past_end_none (r : Row) (df : DataFrame) :
  sorted_by_time (r :: df) -> (t1 < open_time r)%Z ->
  filter (in_range t0 t1) df = [].
Proof.
  intros Hs Hr. apply filter_none.
  apply StronglySorted_inv in Hs as [_ Hall].
  eapply Forall_impl; [|exact Hall].
  unfold time_le, in_range. intros y Hy.
  apply andb_false_iff. right. apply Z.leb_gt. lia.
Qed.

(** From a row that is not before the start on, the slice is a prefix. *)
Lemma prefix_upto (df : DataFrame) :
  sorted_by_time df ->
  Forall (fun r => (t0 <= open_time r)%Z) df ->
  firstn (first_failing upto df) df = filter (in_range t0 t1) df.
Proof.
  induction df as [|r df IH]; intros Hs Hall; [reflexivity|].
  pose proof (Forall_inv Hall) as Hr.
  cbn [first_failing filter]. unfold in_range at 1.
  replace (t0 <=? open_time r)%Z with true by (symmetry; apply Z.leb_le; exact Hr).
  cbn [andb]. destruct (open_time r <=? t1)%Z eqn:E.
  - cbn [firstn]. f_equal. apply IH.
    + apply StronglySorted_inv in Hs. tauto.
    + apply Forall_inv_tail in Hall. exact Hall.
  - apply Z.leb_gt in E. cbn [firstn]. symmetry.
    apply (past_end_none r df Hs E).
Qed.

Lemma slice_is_filter (df : DataFrame) :
  sorted_by_time df ->
  firstn (first_failing upto df - first_failing before df)
         (skipn (first_failing before df) df)
  = filter (in_range t0 t1) df.
Proof.
  induction df as [|r df IH]; intros Hs; [reflexivity|].
  cbn [first_failing]. destruct (open_time r <? t0)%Z eqn:E0.
  - apply Z.ltb_lt in E0.
    cbn [filter]. unfold in_range at 1.
    replace (t0 <=? open_time r)%Z with false by (symmetry; apply Z.leb_gt; exact E0).
    cbn [andb skipn]. destruct (open_time r <=? t1)%Z eqn:E1.
    + rewrite Nat.sub_succ. apply IH.
      apply StronglySorted_inv in Hs. tauto.
    + apply Z.leb_gt in E1. cbn [Nat.sub firstn]. symmetry.
      apply (past_end_none r df Hs E1).
  - apply Z.ltb_ge in E0. rewrite Nat.sub_0_r. cbn [skipn].
    change (if (open_time r <=? t1)%Z then S (first_failing upto df) else 0%nat)
      with (first_failing upto (r :: df)).
    apply prefix_upto; [exact Hs|].
    constructor; [exact E0|].
    apply StronglySorted_inv in Hs as [_ Hall].
    eapply Forall_impl; [|exact Hall]. unfold time_le. intros y Hy. lia.
Qed.

End Slice.

Lemma loc_dates_filter (df : DataFrame) (dt_ini dt_fim : Z) :
  sorted_by_time df ->
  loc_dates df dt_ini dt_fim
  = filter (in_range (day_start dt_ini) (day_end dt_fim)) df.
Proof. intros Hs. unfold loc_dates. cbv zeta. apply slice_is_filter, Hs. Qed.

Lemma in_range_iff (t0 t1 : Timestamp) (r : Row) :
  in_range t0 t1 r = true <-> (t0 <= open_time r <= t1)%Z.
Proof. unfold in_range. rewrite andb_true_iff, !Z.leb_le. tauto. Qed.

Lemma loc_dates_full (df : DataFrame) (min_d max_d : Z) :
  sorted_by_time df ->
  date_bounds df = Some (min_d, max_d) ->
  loc_dates df min_d max_d = df.
Proof.
  intros Hs Hb. rewrite loc_dates_filter by exact Hs.
  unfold date_bounds in Hb.
  destruct (index_min df) as [lo|] eqn:Hlo; [|discriminate].
  destruct (index_max df) as [hi|] eqn:Hhi; [|discriminate].
  injection Hb as <- <-.
  apply filter_all. apply Forall_forall. intros r Hr.
  pose proof (index_min_le df lo Hlo) as Hmin.
  pose proof (index_max_ge df hi Hhi) as Hmax.
  rewrite Forall_forall in Hmin, Hmax.
  specialize (Hmin r Hr). specialize (Hmax r Hr). cbv beta in Hmin, Hmax.
  apply in_range_iff, day_range_iff.
  split; apply day_of_mono; assumption.
Qed.

(** C9: on the frame sorted by time, the slice between two dates is the
    frame restricted to the rows whose time lies between the start of
    the first date and the end of the second, both ends included, in
    frame order; with the dates of the earliest and latest time of the
    frame it is the whole frame; and it is the empty frame, not a
    failure, when no row lies in the range, as when the dates are
    reversed. *)
Theorem loc_dates_inclusive (df : DataFrame) (dt_ini dt_fim : Z) :
  sorted_by_time df ->
  loc_dates df dt_ini dt_fim
  = filter (in_range (day_start dt_ini) (day_end dt_fim)) df /\
  (forall r, In r (loc_dates df dt_ini dt_fim) <->
             In r df /\
             (day_start dt_ini <= open_time r <= day_end dt_fim)%Z) /\
  (forall min_d max_d,
      date_bounds df = Some (min_d, max_d) -> loc_dates df min_d max_d = df) /\
  ((dt_fim < dt_ini)%Z -> loc_dates df dt_ini dt_fim = []).
Proof.
  intros Hs. pose proof (loc_dates_filter df dt_ini dt_fim Hs) as Hf.
  split; [exact Hf|]. split; [|split].
  - intros r. rewrite Hf, filter_In, in_range_iff. tauto.
  - intros min_d max_d. apply loc_dates_full, Hs.
  - intros Hrev. rewrite Hf. apply filter_none, Forall_forall.
    intros r _. destruct (in_range _ _ r) eqn:E; [|reflexivity].
    apply in_range_iff, day_range_iff in E. lia.
Qed.

Lemma three_days_sorted : sorted_by_time three_days.
Proof.
  unfold sorted_by_time, three_days.
  repeat constructor; unfold time_le; vm_compute; discriminate.
Qed.

Lemma loc_dates_inclusive_witness :
  loc_dates three_days (days_from_civil 2020 1 2) (days_from_civil 2020 1 3)
  = filter (in_range (at_date 2020 1 2) (day_end (days_from_civil 2020 1 3)))
           three_days /\
  loc_dates three_days (days_from_civil 2020 1 1) (days_from_civil 2020 1 3)
  = three_days /\
  loc_dates three_days (days_from_civil 2020 1 3) (days_from_civil 2020 1 1)
  = [].
Proof.
  split; [|split].
  - exact (proj1 (loc_dates_inclusive three_days (days_from_civil 2020 1 2)
                    (days_from_civil 2020 1 3) three_days_sorted)).
  - destruct (loc_dates_inclusive three_days 0%Z 0%Z three_days_sorted)
      as (_ & _ & H & _).
    apply (H (days_from_civil 2020 1 1) (days_from_civil 2020 1 3)).
    vm_compute. reflexivity.
  - destruct (loc_dates_inclusive three_days (days_from_civil 2020 1 3)
                (days_from_civil 2020 1 1) three_days_sorted)
      as (_ & _ & _ & H).
    apply H. vm_compute. reflexivity.
Defined.

(** ** The calendar *)

Module CalendarFacts.
Local Open Scope Z_scope.

Lemma era_year_bounds doe : 0 <= doe < 146097 -> 0 <= era_year doe <= 399.
Proof.
  intros H. unfold era_year. Z.to_euclidean_division_equations. lia.
Qed.

Lemma era_day_of_year doe :
  0 <= doe < 146097 ->
  0 <= doe - (365 * era_year doe + era_year doe / 4 - era_year doe / 100) <= 365.
Proof.
  intros H. unfold era_year. Z.to_euclidean_division_equations. lia.
Qed.

Lemma era_year_mono a b :
  0 <= a <= b -> b < 146097 -> era_year a <= era_year b.
Proof.
  intros H H'. unfold era_year. Z.to_euclidean_division_equations. lia.
Qed.

Lemma era_months_bounds doe : 0 <= doe < 146097 -> 0 <= era_months doe <= 4799.
Proof.
  intros H. pose proof (era_year_bounds doe H) as Hy.
  pose proof (era_day_of_year doe H) as Hd. unfold era_months. cbv zeta.
  set (y := era_year doe) in *. clearbody y.
  Z.to_euclidean_division_equations. lia.
Qed.

Lemma era_months_mono a b :
  0 <= a <= b -> b < 146097 -> era_months a <= era_months b.
Proof.
  intros H H'.
  pose proof (era_year_mono a b H H') as Hy.
  pose proof (era_day_of_year a ltac:(lia)) as Ha.
  pose proof (era_day_of_year b ltac:(lia)) as Hb.
  unfold era_months. cbv zeta.
  set (ya := era_year a) in *. set (yb := era_year b) in *.
  clearbody ya yb.
  assert (ya = yb \/ ya + 1 <= yb) as [->|Hlt] by lia;
    Z.to_euclidean_division_equations; lia.
Qed.

Lemma march_months_split d :
  march_months d
  = 4800 * ((d + 719468) / 146097) + era_months ((d + 719468) mod 146097).
Proof. reflexivity. Qed.

Lemma march_months_mono d e : d <= e -> march_months d <= march_months e.
Proof.
  intros H. rewrite !march_months_split.
  set (x := d + 719468). set (y := e + 719468).
  assert (Hxy : x <= y) by (unfold x, y; lia). clearbody x y.
  pose proof (Z.mod_pos_bound x 146097 ltac:(lia)) as Bx.
  pose proof (Z.mod_pos_bound y 146097 ltac:(lia)) as By.
  pose proof (era_months_bounds _ Bx) as Mx.
  pose proof (era_months_bounds _ By) as My.
  pose proof (Z.div_le_mono x y 146097 ltac:(lia) Hxy) as Hq.
  assert (x / 146097 = y / 146097 \/ x / 146097 + 1 <= y / 146097)
    as [E|Hlt] by lia.
  - rewrite E.
    assert (x mod 146097 <= y mod 146097).
    { pose proof (Z.div_mod x 146097 ltac:(lia)).
      pose proof (Z.div_mod y 146097 ltac:(lia)). lia. }
    pose proof (era_months_mono (x mod 146097) (y mod 146097) ltac:(lia) ltac:(lia)).
    lia.
  - lia.
Qed.

Lemma month_index_mono d e : d <= e -> month_index d <= month_index e.
Proof.
  intros H. unfold month_index. pose proof (march_months_mono d e H). lia.
Qed.

Lemma year_of_day_mono d e : d <= e -> year_of_day d <= year_of_day e.
Proof.
  intros H. unfold year_of_day.
  apply Z.div_le_mono; [lia|apply month_index_mono, H].
Qed.

(** A later time is in the same or a later bucket. *)
Lemma bucket_mono (f : Freq) (t u : Timestamp) :
  t <= u -> bucket f t <= bucket f u.
Proof.
  intros H. apply day_of_mono in H. destruct f; simpl.
  - exact H.
  - apply month_index_mono, H.
  - apply year_of_day_mono, H.
Qed.

(** The day ordinal of a civil date lies in the month of that date. *)
Lemma march_round_trip y mp d :
  0 <= mp <= 11 -> 1 <= d <= 28 ->
  march_months ((y / 400) * 146097
                + ((y - y / 400 * 400) * 365 + (y - y / 400 * 400) / 4
                   - (y - y / 400 * 400) / 100 + ((153 * mp + 2) / 5 + d - 1))
                - 719468)
  = 12 * y + mp.
Proof.
  intros Hm Hd. unfold march_months. cbv zeta.
  set (era := y / 400). set (yoe := y - era * 400).
  assert (Hyoe : 0 <= yoe <= 399).
  { unfold yoe, era. pose proof (Z.div_mod y 400 ltac:(lia)).
    pose proof (Z.mod_pos_bound y 400 ltac:(lia)). lia. }
  set (doy := (153 * mp + 2) / 5 + d - 1).
  assert (Hdoy : 0 <= doy <= 364).
  { unfold doy. Z.to_euclidean_division_equations. lia. }
  set (doe := yoe * 365 + yoe / 4 - yoe / 100 + doy).
  assert (Hdoe : 0 <= doe < 146097).
  { unfold doe. Z.to_euclidean_division_equations. lia. }
  replace (era * 146097 + doe - 719468 + 719468) with (doe + era * 146097)
    by lia.
  rewrite Z.div_add, Z.mod_add by lia.
  rewrite Z.div_small, Z.mod_small by lia.
  assert (Hy : era_year doe = yoe).
  { unfold era_year, doe. clearbody doy yoe.
    Z.to_euclidean_division_equations. lia. }
  unfold era_months. cbv zeta. rewrite Hy.
  replace (doe - (365 * yoe + yoe / 4 - yoe / 100)) with doy
    by (unfold doe; lia).
  assert ((5 * doy + 2) / 153 = mp).
  { unfold doy. Z.to_euclidean_division_equations. lia. }
  unfold yoe in *. lia.
Qed.

Lemma month_index_civil y m d :
  1 <= m <= 12 -> 1 <= d <= 28 ->
  month_index (days_from_civil y m d) = 12 * y + (m - 1).
Proof.
  intros Hm Hd. unfold month_index, days_from_civil. cbv zeta.
  destruct (m <=? 2) eqn:E.
  - apply Z.leb_le in E.
    replace (2 <? m) with false by (symmetry; apply Z.ltb_ge; lia).
    rewrite march_round_trip by lia. lia.
  - apply Z.leb_gt in E.
    replace (2 <? m) with true by (symmetry; apply Z.ltb_lt; lia).
    rewrite march_round_trip by lia. lia.
Qed.

Lemma civil_of_day y m d :
  1 <= m <= 12 -> 1 <= d <= 28 ->
  year_of_day (days_from_civil y m d) = y /\
  month_of_day (days_from_civil y m d) = m.
Proof.
  intros Hm Hd. unfold year_of_day, month_of_day.
  rewrite month_index_civil by assumption.
  pose proof (Z.div_mod (12 * y + (m - 1)) 12 ltac:(lia)).
  pose proof (Z.mod_pos_bound (12 * y + (m - 1)) 12 ltac:(lia)). lia.
Qed.

End CalendarFacts.

(** ** Resampling *)

Section Resample.

Variable f : Freq.

Lemma In_Zrange (lo hi b : Z) : In b (Zrange lo hi) <-> (lo <= b <= hi)%Z.
Proof.
  unfold Zrange. rewrite in_map_iff. split.
  - intros (k & <- & Hk). apply in_seq in Hk. lia.
  - intros H. exists (Z.to_nat (b - lo)). split; [lia|].
    apply in_seq. lia.
Qed.

Lemma NoDup_Zrange (lo hi : Z) : NoDup (Zrange lo hi).
Proof.
  unfold Zrange. apply Finite.Injective_map_NoDup.
  - intros a b H. lia.
  - apply seq_NoDup.
Qed.

Lemma series_min_le (s : Series) (lo : Timestamp) :
  series_min s = Some lo -> Forall (fun p => (lo <= fst p)%Z) s.
Proof.
  destruct s as [|p rest]; [discriminate|]. simpl. intros H.
  injection H as <-.
  destruct (fold_min_le (map fst rest) (fst p)) as [H1 H2].
  constructor; [exact H1|]. rewrite Forall_map in H2. exact H2.
Qed.

Lemma series_max_ge (s : Series) (hi : Timestamp) :
  series_max s = Some hi -> Forall (fun p => (fst p <= hi)%Z) s.
Proof.
  destruct s as [|p rest]; [discriminate|]. simpl. intros H.
  injection H as <-.
  destruct (fold_max_ge (map fst rest) (fst p)) as [H1 H2].
  constructor; [exact H1|]. rewrite Forall_map in H2. exact H2.
Qed.

(** The bucket of every row lies between the first and the last bucket
    of the resampled series. *)
Lemma bucket_covered (s : Series) (t : Timestamp) (c : option Qc) :
  In (t, c) s ->
  exists lo hi,
    series_min s = Some lo /\ series_max s = Some hi /\
    (bucket f lo <= bucket f t <= bucket f hi)%Z.
Proof.
  intros Hin.
  destruct (series_min s) as [lo|] eqn:Hlo;
    [|destruct s; [destruct Hin|discriminate]].
  destruct (series_max s) as [hi|] eqn:Hhi;
    [|destruct s; [destruct Hin|discriminate]].
  exists lo, hi. split; [reflexivity|]. split; [reflexivity|].
  pose proof (series_min_le s lo Hlo) as Hmin.
  pose proof (series_max_ge s hi Hhi) as Hmax.
  rewrite Forall_forall in Hmin, Hmax.
  specialize (Hmin _ Hin). specialize (Hmax _ Hin). simpl in Hmin, Hmax.
  split; apply CalendarFacts.bucket_mono; assumption.
Qed.

Lemma In_resample (a : Agg) (s : Series) (b : Z) (c : option Qc) :
  In (b, c) (resample f a s) <->
  exists lo hi,
    series_min s = Some lo /\ series_max s = Some hi /\
    (bucket f lo <= b <= bucket f hi)%Z /\
    c = agg_apply a (group f b s).
Proof.
  unfold resample.
  destruct (series_min s) as [lo|]; [destruct (series_max s) as [hi|]|].
  - rewrite in_map_iff. split.
    + intros (b' & E & Hb). injection E as <- <-. apply In_Zrange in Hb.
      exists lo, hi. auto.
    + intros (lo' & hi' & E1 & E2 & Hb & ->).
      injection E1 as <-. injection E2 as <-.
      exists b. split; [reflexivity|]. apply In_Zrange, Hb.
  - split; [intros []|]. intros (? & ? & _ & E & _). discriminate.
  - split; [intros []|]. intros (? & ? & E & _). discriminate.
Qed.

Lemma resample_keys (a : Agg) (s : Series) :
  NoDup (map fst (resample f a s)).
Proof.
  unfold resample.
  destruct (series_min s) as [lo|]; [destruct (series_max s) as [hi|]|];
    try constructor.
  rewrite map_map. simpl. rewrite map_id. apply NoDup_Zrange.
Qed.

Lemma In_dropna {K} (l : list (K * option Qc)) (k : K) (q : Qc) :
  In (k, q) (dropna l) <-> In (k, Some q) l.
Proof.
  unfold dropna. rewrite In_filter_map. split.
  - intros ([k' [q'|]] & Hin & E); simpl in E; [|discriminate].
    injection E as <- <-. exact Hin.
  - intros Hin. exists (k, Some q). split; [exact Hin|reflexivity].
Qed.

Lemma dropna_keys {K} (l : list (K * option Qc)) :
  NoDup (map fst l) -> NoDup (map fst (dropna l)).
Proof.
  unfold dropna. induction l as [|[k [q|]] l IH]; simpl; intros H.
  - constructor.
  - apply NoDup_cons_iff in H as [Hk Hl]. constructor; [|apply IH, Hl].
    intros Hin. apply Hk. apply in_map_iff in Hin as ([k' q'] & E & Hin).
    simpl in E. subst k'. apply (In_dropna l k q') in Hin.
    apply in_map_iff. exists (k, Some q'). auto.
  - apply NoDup_cons_iff in H as [_ Hl]. apply IH, Hl.
Qed.

Lemma group_app (b : Z) (s1 s2 : Series) :
  group f b (s1 ++ s2) = group f b s1 ++ group f b s2.
Proof. unfold group. rewrite filter_app, map_app. reflexivity. Qed.

Lemma group_cons (b : Z) (t : Timestamp) (c : option Qc) (s : Series) :
  group f b ((t, c) :: s)
  = if (bucket f t =? b)%Z then c :: group f b s else group f b s.
Proof. unfold group. simpl. destruct (bucket f t =? b)%Z; reflexivity. Qed.

Lemma agg_last_snoc (b : Z) (s : Series) (t : Timestamp) (c : option Qc) :
  agg_apply AggLast (group f b (s ++ [(t, c)]))
  = if (bucket f t =? b)%Z
    then match c with
         | Some q => Some q
         | None => agg_apply AggLast (group f b s)
         end
    else agg_apply AggLast (group f b s).
Proof.
  rewrite group_app, group_cons. change (group f b []) with (@nil (option Qc)).
  destruct (bucket f t =? b)%Z.
  - simpl agg_apply. rewrite present_app. destruct c as [q|]; simpl present.
    + rewrite map_app. simpl map. apply last_last.
    + rewrite app_nil_r. reflexivity.
  - rewrite app_nil_r. reflexivity.
Qed.

Lemma silent_present (b : Z) (post : Series) :
  silent f b post -> present (group f b post) = [].
Proof.
  induction post as [|[t c] post IH]; intros H; [reflexivity|].
  rewrite group_cons. destruct (bucket f t =? b)%Z eqn:E.
  - apply Z.eqb_eq in E. rewrite (H t c (or_introl eq_refl) E). simpl.
    apply IH. intros t' c' Hin. apply H. right. exact Hin.
  - apply IH. intros t' c' Hin. apply H. right. exact Hin.
Qed.

Lemma agg_last_spec (b : Z) (s : Series) (q : Qc) :
  agg_apply AggLast (group f b s) = Some q <->
  exists pre t post,
    s = pre ++ (t, Some q) :: post /\ bucket f t = b /\ silent f b post.
Proof.
  split.
  - induction s as [|[t c] s IH] using rev_ind; [discriminate|].
    rewrite agg_last_snoc. destruct (bucket f t =? b)%Z eqn:E.
    + apply Z.eqb_eq in E. destruct c as [q'|].
      * intros H. injection H as ->. exists s, t, [].
        split; [reflexivity|]. split; [exact E|]. intros ? ? [].
      * intros H. destruct (IH H) as (pre & t0 & post & -> & Hb & Hs).
        exists pre, t0, (post ++ [(t, None)]).
        split; [rewrite <- app_assoc; reflexivity|]. split; [exact Hb|].
        intros t' c' Hin Hb'. apply in_app_or in Hin as [Hin|[Heq|[]]].
        -- exact (Hs t' c' Hin Hb').
        -- congruence.
    + apply Z.eqb_neq in E.
      intros H. destruct (IH H) as (pre & t0 & post & -> & Hb & Hs).
      exists pre, t0, (post ++ [(t, c)]).
      split; [rewrite <- app_assoc; reflexivity|]. split; [exact Hb|].
      intros t' c' Hin Hb'. apply in_app_or in Hin as [Hin|[Heq|[]]].
      * exact (Hs t' c' Hin Hb').
      * injection Heq as <- <-. contradiction.
  - intros (pre & t & post & -> & Hb & Hs).
    rewrite group_app, group_cons.
    replace (bucket f t =? b)%Z with true by (symmetry; apply Z.eqb_eq, Hb).
    simpl agg_apply. rewrite present_app. simpl present.
    rewrite (silent_present b post Hs), map_app. simpl map. apply last_last.
Qed.

Lemma qsum_group (b : Z) (s : Series) :
  qsum (present (group f b s)) = bucket_total f b s.
Proof.
  induction s as [|[t c] s IH]; [reflexivity|].
  rewrite group_cons. cbn [bucket_total].
  destruct (bucket f t =? b)%Z.
  - destruct c as [q|]; simpl present.
    + rewrite qsum_cons, IH. reflexivity.
    + rewrite IH. ring.
  - rewrite IH. ring.
Qed.

End Resample.

Section SerieFacts.

Variable f : Freq.

Lemma get_column_split (m : Metric) (df : DataFrame) (pre post : Series)
      (t : Timestamp) (c : option Qc) :
  get_column m df = pre ++ (t, c) :: post ->
  exists dpre r dpost,
    df = dpre ++ r :: dpost /\ open_time r = t /\ column m r = c /\
    get_column m dpost = post.
Proof.
  unfold get_column. intros H.
  apply map_eq_app in H as (dpre & drest & -> & _ & H).
  apply map_eq_cons in H as (r & dpost & -> & Hr & Hpost).
  injection Hr as Ht Hc.
  exists dpre, r, dpost. auto.
Qed.

Lemma In_get_column (m : Metric) (df : DataFrame) (t : Timestamp) (c : option Qc) :
  In (t, c) (get_column m df) <->
  exists r, In r df /\ open_time r = t /\ column m r = c.
Proof.
  unfold get_column. rewrite in_map_iff. split.
  - intros (r & E & Hin). injection E as <- <-. eauto.
  - intros (r & Hin & <- & <-). eauto.
Qed.

(** An entry of the resampled series with aggregation "last". *)
Lemma In_serie_last (m : Metric) (df : DataFrame) (b : Z) (q : Qc) :
  In (b, q) (dropna (resample f AggLast (get_column m df))) <->
  exists pre r post,
    df = pre ++ r :: post /\
    bucket f (open_time r) = b /\ column m r = Some q /\
    (forall r', In r' post -> bucket f (open_time r') = b -> column m r' = None).
Proof.
  rewrite In_dropna, In_resample. split.
  - intros (lo & hi & _ & _ & _ & Hagg). symmetry in Hagg.
    apply agg_last_spec in Hagg as (pre & t & post & Hs & Hb & Hsil).
    apply get_column_split in Hs as (dpre & r & dpost & -> & Ht & Hc & Hpost).
    exists dpre, r, dpost. split; [reflexivity|].
    split; [congruence|]. split; [exact Hc|].
    intros r' Hin Hb'. apply (Hsil (open_time r') (column m r')); [|exact Hb'].
    rewrite <- Hpost. apply In_get_column. eauto.
  - intros (pre & r & post & -> & Hb & Hc & Hsil).
    assert (Hin : In (open_time r, Some q) (get_column m (pre ++ r :: post))).
    { apply In_get_column. exists r. split; [|auto].
      apply in_or_app. right. left. reflexivity. }
    destruct (bucket_covered f _ _ _ Hin) as (lo & hi & Hlo & Hhi & Hrange).
    exists lo, hi. split; [exact Hlo|]. split; [exact Hhi|].
    split; [rewrite <- Hb; exact Hrange|].
    symmetry. apply agg_last_spec.
    exists (get_column m pre), (open_time r), (get_column m post).
    split; [|split; [exact Hb|]].
    + unfold get_column. rewrite map_app. simpl. rewrite Hc. reflexivity.
    + intros t c Hin' Hb'. apply In_get_column in Hin' as (r' & Hr' & <- & <-).
      apply Hsil; assumption.
Qed.

(** The entry of the bucket of a row in the resampled volume. *)
Lemma In_serie_sum (df : DataFrame) (r : Row) :
  In r df ->
  In (bucket f (open_time r), volume_total f (bucket f (open_time r)) df)
     (dropna (resample f AggSum (get_column MVolume df))).
Proof.
  intros Hr. rewrite In_dropna, In_resample.
  assert (Hin : In (open_time r, Volume r) (get_column MVolume df)).
  { apply In_get_column. exists r. auto. }
  destruct (bucket_covered f _ _ _ Hin) as (lo & hi & Hlo & Hhi & Hrange).
  exists lo, hi. split; [exact Hlo|]. split; [exact Hhi|].
  split; [exact Hrange|].
  simpl agg_apply. rewrite qsum_group. reflexivity.
Qed.

Lemma serie_keys (m : Metric) (df : DataFrame) :
  NoDup (map fst (serie f m df)).
Proof. unfold serie. apply dropna_keys, resample_keys. Qed.

End SerieFacts.

(** C6, as the program has it: [serie] has at most one entry per
    calendar bucket.  For a price metric it has an entry for a bucket
    exactly when some row of the bucket has a value of the metric, and
    the entry is the value of the last such row of the frame (the one
    with the latest time, the frame being sorted).  For the volume every
    bucket that has a row has an entry, which is the sum of the volumes
    present in its rows: 10, 20 and 30 in one month give 60. *)
Theorem serie_buckets (f : Freq) (df : DataFrame) :
  (forall m, NoDup (map fst (serie f m df))) /\
  (forall m b q,
      m <> MVolume ->
      (In (b, q) (serie f m df) <->
       exists pre r post,
         df = pre ++ r :: post /\
         bucket f (open_time r) = b /\ column m r = Some q /\
         (forall r', In r' post ->
                     bucket f (open_time r') = b -> column m r' = None))) /\
  (forall r,
      In r df ->
      In (bucket f (open_time r), volume_total f (bucket f (open_time r)) df)
         (serie f MVolume df)) /\
  map snd (serie FreqM MVolume january) = [of_Z 60].
Proof.
  split; [intros m; apply serie_keys|]. split; [|split].
  - intros m b q Hm. unfold serie.
    replace (agg_of m) with AggLast by (destruct m; try reflexivity; congruence).
    apply In_serie_last.
  - intros r Hr. unfold serie. simpl agg_of. apply In_serie_sum, Hr.
  - vm_compute. reflexivity.
Qed.

Lemma serie_buckets_witness :
  (In (24240%Z, of_Z 3) (serie FreqM MClose january) <->
   exists pre r post,
     january = pre ++ r :: post /\
     bucket FreqM (open_time r) = 24240%Z /\ column MClose r = Some (of_Z 3) /\
     (forall r', In r' post ->
                 bucket FreqM (open_time r') = 24240%Z ->
                 column MClose r' = None)) /\
  In (bucket FreqM (at_date 2020 1 1),
      volume_total FreqM (bucket FreqM (at_date 2020 1 1)) january)
     (serie FreqM MVolume january).
Proof.
  destruct (serie_buckets FreqM january) as (_ & Hlast & Hsum & _).
  split.
  - apply Hlast. discriminate.
  - apply (Hsum (sample_row (at_date 2020 1 1) (of_Z 1) (Some (of_Z 10)))).
    left. reflexivity.
Defined.

(** C6 as stated fails.  The daily volume of a frame with rows on
    2020-01-01 and 2020-01-03 only has an entry, 0, for 2020-01-02, a
    bucket without a row.  And the monthly opening price of a frame
    whose latest row of the month has no opening price is the opening
    price of an earlier row. *)
Lemma serie_empty_bucket_and_missing_last :
  map fst (serie FreqD MVolume gap_day) = [18262; 18263; 18264]%Z /\
  nth_error (serie FreqD MVolume gap_day) 1 = Some (18263%Z, 0%Qc) /\
  Forall (fun r => bucket FreqD (open_time r) <> 18263%Z) gap_day /\
  serie FreqM MOpen open_missing = [(24240%Z, of_Z 5)] /\
  map (fun r => (bucket FreqM (open_time r), Open r)) open_missing
  = [(24240%Z, Some (of_Z 5)); (24240%Z, None)].
Proof.
  split; [vm_compute; reflexivity|].
  split; [vm_compute; reflexivity|].
  split; [repeat constructor; vm_compute; discriminate|].
  split; vm_compute; reflexivity.
Qed.

(** * Further properties of the script *)

(** ** Bar colours *)

Section Colours.

Lemma diff_length (xs : list (option Qc)) :
  List.length (diff xs) = List.length xs.
Proof.
  unfold diff. rewrite map2_length, shift1_length. apply Nat.min_id.
Qed.

Lemma nth_error_diff_S (xs : list (option Qc)) (i : nat) (p c : option Qc) :
  nth_error xs i = Some p ->
  nth_error xs (S i) = Some c ->
  nth_error (diff xs) (S i)
  = Some (match c, p with
          | Some a, Some b => Some (a - b)%Qc
          | _, _ => None
          end).
Proof.
  intros Hp Hc. unfold diff.
  rewrite nth_error_map2, nth_error_shift1_S, Hc, Hp. reflexivity.
Qed.

Lemma diff_head (x : option Qc) (xs : list (option Qc)) :
  nth_error (diff (x :: xs)) 0 = Some None.
Proof. unfold diff. simpl. destruct x; reflexivity. Qed.

Lemma Qc_pos_minus (a b : Qc) : Qc_ltb 0 (b - a) = true <-> (a < b)%Qc.
Proof. rewrite Qc_ltb_lt. symmetry. apply Qclt_minus_iff. Qed.

Lemma Qc_neg_minus (a b : Qc) : Qc_ltb (b - a) 0 = true <-> (b < a)%Qc.
Proof.
  rewrite Qc_ltb_lt, (Qclt_minus_iff b a), (Qclt_minus_iff (b - a) 0).
  replace (0 + - (b - a))%Qc with (a + - b)%Qc by ring. tauto.
Qed.

Lemma Qc_ltb_irrefl (a : Qc) : Qc_ltb a a = false.
Proof.
  destruct (Qc_ltb a a) eqn:E; [|reflexivity].
  apply Qc_ltb_lt in E. exfalso.
  exact (Qclt_not_le _ _ E (Qcle_refl a)).
Qed.

Lemma Qc_ltb_asym (a b : Qc) : Qc_ltb a b = true -> Qc_ltb b a = false.
Proof.
  intros H. destruct (Qc_ltb b a) eqn:E; [|reflexivity].
  apply Qc_ltb_lt in H, E. exfalso.
  exact (Qclt_not_le _ _ H (Qclt_le_weak _ _ E)).
Qed.

(** The colour that the sign of a difference selects. *)
Lemma sign_color_step (p c : option Qc) :
  step_color p c
    (let d := match c, p with
              | Some a, Some b => Some (a - b)%Qc
              | _, _ => None
              end in
     if cell_pos d then Green else if cell_neg d then Red else LightGray).
Proof.
  destruct p as [a|], c as [b|]; simpl; try reflexivity.
  repeat split.
  - intros H. apply Qc_pos_minus in H. rewrite H. reflexivity.
  - intros H. apply Qc_neg_minus in H.
    rewrite (Qc_ltb_asym _ _ H), H. reflexivity.
  - intros ->. replace (b - b)%Qc with 0%Qc by ring.
    rewrite Qc_ltb_irrefl. reflexivity.
Qed.

Lemma reset_first_noop (xs : list (option Qc)) :
  reset_first (sign_colors (diff xs)) = sign_colors (diff xs).
Proof.
  destruct xs as [|x xs]; [reflexivity|].
  unfold diff. simpl. destruct x; reflexivity.
Qed.

Lemma colors_length (xs : list (option Qc)) :
  List.length (reset_first (sign_colors (diff xs))) = List.length xs.
Proof.
  rewrite reset_first_noop. unfold sign_colors.
  rewrite length_map. apply diff_length.
Qed.

Lemma colors_head (x : option Qc) (xs : list (option Qc)) :
  nth_error (reset_first (sign_colors (diff (x :: xs)))) 0 = Some LightGray.
Proof. unfold diff. simpl. destruct x; reflexivity. Qed.

Lemma colors_step (xs : list (option Qc)) (i : nat) (p c : option Qc) :
  nth_error xs i = Some p ->
  nth_error xs (S i) = Some c ->
  exists col,
    nth_error (reset_first (sign_colors (diff xs))) (S i) = Some col /\
    step_color p c col.
Proof.
  intros Hp Hc. rewrite reset_first_noop. unfold sign_colors.
  rewrite nth_error_map, (nth_error_diff_S xs i p c Hp Hc).
  eexists. split; [reflexivity|]. apply sign_color_step.
Qed.

End Colours.

(** X1: the evolution chart has one colour per point of [serie]; the
    first bar is light gray; every later bar is green if its value is
    above the value before it, red if it is below, light gray if the
    two are equal. *)
Theorem evolution_colors_sign (values : list Qc) :
  List.length (evolution_colors values) = List.length values /\
  (values <> [] -> nth_error (evolution_colors values) 0 = Some LightGray) /\
  (forall i prev cur,
      nth_error values i = Some prev ->
      nth_error values (S i) = Some cur ->
      exists col,
        nth_error (evolution_colors values) (S i) = Some col /\
        ((prev < cur)%Qc -> col = Green) /\
        ((cur < prev)%Qc -> col = Red) /\
        (prev = cur -> col = LightGray)).
Proof.
  unfold evolution_colors. split; [|split].
  - rewrite colors_length. apply length_map.
  - destruct values as [|v rest]; [congruence|]. intros _. apply colors_head.
  - intros i prev cur Hp Hc.
    destruct (colors_step (map (@Some Qc) values) i (Some prev) (Some cur))
      as (col & Hcol & Hstep).
    + rewrite nth_error_map, Hp. reflexivity.
    + rewrite nth_error_map, Hc. reflexivity.
    + exists col. split; [exact Hcol|exact Hstep].
Qed.

Lemma evolution_colors_sign_witness :
  nth_error (evolution_colors [of_Z 3; of_Z 5; of_Z 4]) 0 = Some LightGray /\
  exists col,
    nth_error (evolution_colors [of_Z 3; of_Z 5; of_Z 4]) 2 = Some col /\
    col = Red.
Proof.
  destruct (evolution_colors_sign [of_Z 3; of_Z 5; of_Z 4]) as (_ & H0 & Hs).
  split; [apply H0; discriminate|].
  destruct (Hs 1%nat (of_Z 5) (of_Z 4) eq_refl eq_refl) as (col & Hcol & _ & Hred & _).
  exists col. split; [exact Hcol|]. apply Hred. apply Qc_ltb_lt. reflexivity.
Defined.

(** X2: the volume bars have one colour per row; the first is light
    gray; a later bar is light gray when its volume or the one before
    it is missing, and follows the sign of the change otherwise.  The
    assignment to [colors[0]] changes nothing: the first difference is
    NaN, which is light gray already. *)
Theorem vol_colors_sign (df : DataFrame) :
  List.length (vol_colors df) = List.length df /\
  vol_colors df = sign_colors (diff (map Volume df)) /\
  (df <> [] -> nth_error (vol_colors df) 0 = Some LightGray) /\
  (forall i r_prev r,
      nth_error df i = Some r_prev ->
      nth_error df (S i) = Some r ->
      exists col,
        nth_error (vol_colors df) (S i) = Some col /\
        step_color (Volume r_prev) (Volume r) col).
Proof.
  unfold vol_colors. split; [|split; [|split]].
  - rewrite colors_length. apply length_map.
  - apply reset_first_noop.
  - destruct df as [|r rest]; [congruence|]. intros _. apply colors_head.
  - intros i r_prev r Hp Hc. apply (colors_step _ i).
    + rewrite nth_error_map, Hp. reflexivity.
    + rewrite nth_error_map, Hc. reflexivity.
Qed.

Lemma vol_colors_sign_witness :
  exists col,
    nth_error (vol_colors three_days) 1 = Some col /\
    step_color (Some (of_Z 10)) (Some (of_Z 20)) col.
Proof.
  destruct (vol_colors_sign three_days) as (_ & _ & _ & H).
  apply (H 0%nat (sample_row (at_date 2020 1 1) (of_Z 1) (Some (of_Z 10)))
           (sample_row (at_date 2020 1 2) (of_Z 2) (Some (of_Z 20))));
    reflexivity.
Defined.

(** ** The monthly return bars *)

Section ReturnBars.

Lemma Qcinv_pos (a : Qc) : (0 < a)%Qc -> (0 < / a)%Qc.
Proof.
  unfold Qclt, Qcinv, Q2Qc. simpl this. intros H.
  rewrite Qred_correct. apply Qinv_lt_0_compat. exact H.
Qed.

Lemma hundred_pos : (0 < hundred)%Qc.
Proof. apply Qc_ltb_lt. reflexivity. Qed.

(** Over a positive previous value the return has the sign of the
    change. *)
Lemma pct_positive_iff (prev cur : Qc) :
  (0 < prev)%Qc ->
  ((0 < (cur - prev) / prev * hundred)%Qc <-> (prev < cur)%Qc).
Proof.
  intros Hp.
  assert (Hk : (0 < / prev * hundred)%Qc).
  { replace 0%Qc with (0 * hundred)%Qc by ring.
    apply Qcmult_lt_compat_r; [exact hundred_pos|apply Qcinv_pos, Hp]. }
  replace ((cur - prev) / prev * hundred)%Qc
    with ((cur - prev) * (/ prev * hundred))%Qc
    by (unfold Qcdiv; ring).
  rewrite (Qclt_minus_iff prev cur). fold (cur - prev)%Qc.
  split; intros H.
  - apply Qcnot_le_lt. intros Hle.
    apply (Qcmult_le_compat_r _ _ (/ prev * hundred)%Qc) in Hle;
      [|apply Qclt_le_weak, Hk].
    rewrite Qcmult_0_l in Hle. exact (Qclt_not_le _ _ H Hle).
  - replace 0%Qc with (0 * (/ prev * hundred))%Qc by ring.
    apply Qcmult_lt_compat_r; assumption.
Qed.

Lemma return_colors_length (ret : list fval) :
  List.length (return_colors ret) = List.length ret.
Proof. unfold return_colors. apply length_map. Qed.

Lemma is_nan_pct_formula (prev cur : Qc) :
  is_nan (pct_formula prev cur) = true <-> prev = 0%Qc /\ cur = 0%Qc.
Proof.
  destruct (Qc_eq_dec prev 0) as [->|Hp].
  - rewrite pct_formula_zero. unfold inf_of_sign.
    destruct (Qc_eqb cur 0) eqn:E.
    + apply Qc_eqb_eq in E. simpl. tauto.
    + apply Qc_eqb_neq in E.
      destruct (Qc_ltb 0 cur); simpl; split; try discriminate; tauto.
  - rewrite (pct_formula_finite prev cur Hp). simpl.
    split; [discriminate|tauto].
Qed.

Lemma is_empty_filter_iff {A} (p : A -> bool) (xs : list A) :
  is_empty (filter p xs) = true <-> Forall (fun x => p x = false) xs.
Proof.
  induction xs as [|x xs IH]; simpl.
  - split; [constructor|reflexivity].
  - destruct (p x) eqn:E; simpl.
    + split; [discriminate|]. intros H. apply Forall_inv in H. congruence.
    + rewrite IH. split.
      * intros H. constructor; assumption.
      * intros H. apply Forall_inv_tail in H. exact H.
Qed.

(** Every entry of [ret_m] is NaN exactly when the series has no two
    neighbours other than 0, 0. *)
Lemma ret_m_all_nan_iff (xs : list Qc) :
  is_empty (dropna_fval (ret_m xs)) = true <->
  forall i prev cur,
    nth_error xs i = Some prev -> nth_error xs (S i) = Some cur ->
    prev = 0%Qc /\ cur = 0%Qc.
Proof.
  unfold dropna_fval. rewrite is_empty_filter_iff, Forall_forall. split.
  - intros H i prev cur Hp Hc.
    apply is_nan_pct_formula. apply negb_false_iff.
    apply H. eapply nth_error_In. apply ret_m_step; eassumption.
  - intros H v Hin. apply negb_false_iff.
    apply In_nth_error in Hin as (n & Hn).
    destruct n as [|i].
    + destruct xs as [|x xs]; [discriminate|].
      rewrite ret_m_head in Hn. injection Hn as <-. reflexivity.
    + assert (Hlen : (S i < List.length xs)%nat).
      { rewrite <- ret_m_length. apply nth_error_Some. congruence. }
      destruct (nth_error xs i) as [prev|] eqn:Hp;
        [|apply nth_error_None in Hp; lia].
      destruct (nth_error xs (S i)) as [cur|] eqn:Hc;
        [|apply nth_error_None in Hc; lia].
      rewrite (ret_m_step xs i prev cur Hp Hc) in Hn. injection Hn as <-.
      apply is_nan_pct_formula. exact (H i prev cur Hp Hc).
Qed.

End ReturnBars.

(** X3: the return chart has one colour per month; the first bar is
    red; over a positive closing price of the month before, a bar is
    green exactly when the closing price rose, and red otherwise, also
    when it did not change. *)
Theorem return_colors_rise (xs : list Qc) :
  List.length (return_colors (ret_m xs)) = List.length xs /\
  (xs <> [] -> nth_error (return_colors (ret_m xs)) 0 = Some Red) /\
  (forall i prev cur,
      nth_error xs i = Some prev ->
      nth_error xs (S i) = Some cur ->
      (0 < prev)%Qc ->
      exists col,
        nth_error (return_colors (ret_m xs)) (S i) = Some col /\
        (col = Green <-> (prev < cur)%Qc) /\
        (col = Red <-> (cur <= prev)%Qc)).
Proof.
  split; [rewrite return_colors_length; apply ret_m_length|]. split.
  - destruct xs as [|x xs]; [congruence|]. intros _.
    unfold return_colors. rewrite nth_error_map, ret_m_head. reflexivity.
  - intros i prev cur Hp Hc Hpos.
    unfold return_colors.
    rewrite nth_error_map, (ret_m_step xs i prev cur Hp Hc).
    rewrite pct_formula_finite by (apply not_eq_sym, Qclt_not_eq, Hpos).
    simpl. eexists. split; [reflexivity|].
    destruct (Qc_ltb 0 ((cur - prev) / prev * hundred)) eqn:E.
    + apply Qc_ltb_lt in E.
      apply (proj1 (pct_positive_iff prev cur Hpos)) in E.
      split; split; try discriminate; auto.
      intros H. exfalso. exact (Qclt_not_le _ _ E H).
    + assert (Hle : (cur <= prev)%Qc).
      { apply Qcnot_lt_le. intros H.
        apply (proj2 (pct_positive_iff prev cur Hpos)) in H.
        apply Qc_ltb_lt in H. congruence. }
      split; split; try discriminate; auto.
      intros H. exfalso. exact (Qclt_not_le _ _ H Hle).
Qed.

Lemma return_colors_rise_witness :
  exists col,
    nth_error (return_colors (ret_m [of_Z 100; of_Z 110])) 1 = Some col /\
    (col = Green <-> (of_Z 100 < of_Z 110)%Qc) /\
    (col = Red <-> (of_Z 110 <= of_Z 100)%Qc).
Proof.
  destruct (return_colors_rise [of_Z 100; of_Z 110]) as (_ & _ & H).
  apply (H 0%nat (of_Z 100) (of_Z 110) eq_refl eq_refl).
  apply Qc_ltb_lt. reflexivity.
Defined.

(** X4: the return tab shows the info box instead of the chart exactly
    when no month follows another with a return that is a number: when
    there are fewer than two months, or every two neighbouring closing
    prices are 0 and 0.  With two months of which the first has a
    non-zero closing price the chart is drawn, with [ret_m] as heights
    and one colour per bar. *)
Theorem returns_tab_info_iff (df : DataFrame) :
  (returns_tab df = ReturnsInfo <->
   forall i prev cur,
     nth_error (map snd (close_m df)) i = Some prev ->
     nth_error (map snd (close_m df)) (S i) = Some cur ->
     prev = 0%Qc /\ cur = 0%Qc) /\
  ((List.length (close_m df) <= 1)%nat -> returns_tab df = ReturnsInfo) /\
  (forall m0 m1 rest,
      map snd (close_m df) = m0 :: m1 :: rest -> m0 <> 0%Qc ->
      returns_tab df
      = ReturnsBars (ret_m (m0 :: m1 :: rest))
                    (return_colors (ret_m (m0 :: m1 :: rest)))).
Proof.
  assert (Hiff : returns_tab df = ReturnsInfo <->
                 is_empty (dropna_fval (ret_m (map snd (close_m df)))) = true).
  { unfold returns_tab. cbv zeta.
    destruct (is_empty (dropna_fval (ret_m (map snd (close_m df)))));
      split; congruence. }
  split; [rewrite Hiff; apply ret_m_all_nan_iff|]. split.
  - intros Hlen. apply Hiff, ret_m_all_nan_iff.
    intros i prev cur _ Hc. exfalso.
    assert (S i < List.length (map snd (close_m df)))%nat
      by (apply nth_error_Some; congruence).
    rewrite length_map in H. lia.
  - intros m0 m1 rest Hm Hne. unfold returns_tab. cbv zeta. rewrite Hm.
    destruct (is_empty (dropna_fval (ret_m (m0 :: m1 :: rest)))) eqn:E;
      [|reflexivity].
    exfalso.
    pose proof (proj1 (ret_m_all_nan_iff (m0 :: m1 :: rest)) E) as Hall.
    destruct (Hall 0%nat m0 m1 eq_refl eq_refl) as [H0 _]. contradiction.
Qed.

Lemma returns_tab_info_iff_witness :
  returns_tab january = ReturnsInfo /\
  returns_tab two_months
  = ReturnsBars (ret_m [of_Z 100; of_Z 110])
                (return_colors (ret_m [of_Z 100; of_Z 110])).
Proof.
  split.
  - destruct (returns_tab_info_iff january) as (_ & H & _).
    apply H. vm_compute. apply le_n.
  - destruct (returns_tab_info_iff two_months) as (_ & _ & H).
    apply (H (of_Z 100) (of_Z 110) []).
    + vm_compute. reflexivity.
    + apply Qc_eqb_neq. reflexivity.
Defined.

(** ** The page up to the KPIs *)

Section PageFacts.

Lemma is_empty_false {A} (xs : list A) : is_empty xs = false <-> xs <> [].
Proof. destruct xs; simpl; split; congruence. Qed.

Lemma is_empty_true {A} (xs : list A) : is_empty xs = true <-> xs = [].
Proof. destruct xs; simpl; split; congruence. Qed.

Lemma kpis_cons (v : Qc) (rest : list Qc) :
  exists x,
    var_pct (v :: rest) = Some x /\
    kpis (v :: rest) = Some (mkKpis v (last (v :: rest) v) x).
Proof.
  unfold kpis. cbn [iloc_last iloc_first hd_error].
  destruct (var_pct (v :: rest)) as [x|] eqn:E; [|discriminate].
  exists x. split; reflexivity.
Qed.

(** The rows of a slice are rows of the frame, in order. *)
Lemma loc_dates_segment (df : DataFrame) (a b : Z) :
  exists pre post, df = pre ++ loc_dates df a b ++ post.
Proof.
  unfold loc_dates. cbv zeta.
  set (i0 := first_failing (fun r => (open_time r <? day_start a)%Z) df).
  set (n := (first_failing (fun r => (open_time r <=? day_end b)%Z) df - i0)%nat).
  exists (firstn i0 df), (skipn n (skipn i0 df)).
  rewrite (firstn_skipn n), (firstn_skipn i0). reflexivity.
Qed.

Lemma loc_dates_In (df : DataFrame) (a b : Z) (r : Row) :
  In r (loc_dates df a b) -> In r df.
Proof.
  destruct (loc_dates_segment df a b) as (pre & post & E).
  intros H. rewrite E. apply in_or_app. right. apply in_or_app. left. exact H.
Qed.

Lemma sorted_app_inv (xs ys : DataFrame) :
  sorted_by_time (xs ++ ys) -> sorted_by_time xs /\ sorted_by_time ys.
Proof.
  unfold sorted_by_time. induction xs as [|x xs IH]; simpl; intros H.
  - split; [constructor|exact H].
  - apply StronglySorted_inv in H as [Hs Hall].
    destruct (IH Hs) as [Hx Hy]. split; [|exact Hy].
    constructor; [exact Hx|]. apply Forall_app in Hall. tauto.
Qed.

Lemma loc_dates_sorted (df : DataFrame) (a b : Z) :
  sorted_by_time df -> sorted_by_time (loc_dates df a b).
Proof.
  destruct (loc_dates_segment df a b) as (pre & post & E).
  intros H. rewrite E in H.
  apply sorted_app_inv in H as [_ H]. apply sorted_app_inv in H. tauto.
Qed.

(** A frame with a row has an entry in the resampled volume. *)
Lemma serie_volume_nonempty (f : Freq) (df : DataFrame) :
  df <> [] -> serie f MVolume df <> [].
Proof.
  destruct df as [|r rest]; [congruence|]. intros _ E.
  pose proof (In_serie_sum f (r :: rest) r (or_introl eq_refl)) as H.
  unfold serie in E. simpl agg_of in E. rewrite E in H. destruct H.
Qed.

Lemma exists_last_row (df : DataFrame) :
  df <> [] -> exists pre r, df = pre ++ [r].
Proof.
  intros H. destruct (exists_last H) as (pre & r & E). eauto.
Qed.

(** A frame whose rows all have a close has an entry in the resampled
    close. *)
Lemma serie_close_nonempty (f : Freq) (df : DataFrame) :
  Forall (fun r => Close r <> None) df ->
  df <> [] -> serie f MClose df <> [].
Proof.
  intros Hall Hne E.
  destruct (exists_last_row df Hne) as (pre & r & ->).
  assert (Hr : Close r <> None).
  { rewrite Forall_forall in Hall. apply Hall, in_or_app. right. left.
    reflexivity. }
  destruct (Close r) as [q|] eqn:Hq; [|congruence].
  assert (H : In (bucket f (open_time r), q) (serie f MClose (pre ++ [r]))).
  { unfold serie. simpl agg_of. apply In_serie_last.
    exists pre, r, []. repeat split; auto. intros r' []. }
  rewrite E in H. destruct H.
Qed.

Variable to_datetime : string -> option Timestamp.
Variable to_numeric : string -> option Qc.

Local Abbreviation load := (load_data to_datetime to_numeric).

Lemma load_close_present (csv : list RawRow) :
  Forall (fun r => Close r <> None) (load csv).
Proof.
  apply Forall_forall. intros row Hin.
  apply (Permutation_in _ (load_perm to_datetime to_numeric csv)) in Hin.
  apply In_filter_map in Hin as (raw & _ & Hclean).
  destruct (clean_inv to_datetime to_numeric raw row Hclean)
    as (_ & c & _ & Hrow).
  congruence.
Qed.

Lemma load_sorted (csv : list RawRow) : sorted_by_time (load csv).
Proof. apply sort_values_sorted. Qed.

Lemma load_empty_iff (csv : list RawRow) :
  load csv = [] <->
  Forall (fun r => parses to_datetime to_numeric r = false) csv.
Proof.
  split.
  - intros E. apply Forall_forall. intros r Hr.
    destruct (parses to_datetime to_numeric r) eqn:Hp; [|reflexivity].
    exfalso.
    pose proof (load_perm to_datetime to_numeric csv) as P. rewrite E in P.
    apply Permutation_nil in P.
    destruct (clean_row to_datetime to_numeric r) as [row|] eqn:Hc.
    + assert (In row (filter_map (clean_row to_datetime to_numeric)
                        (filter (parses to_datetime to_numeric) csv))).
      { apply In_filter_map. exists r. split; [|exact Hc].
        apply filter_In. auto. }
      rewrite P in H. destruct H.
    + exact (clean_some to_datetime to_numeric r Hp Hc).
  - intros H.
    pose proof (load_perm to_datetime to_numeric csv) as P.
    rewrite (filter_none _ csv H) in P. simpl in P.
    apply Permutation_sym, Permutation_nil in P. exact P.
Qed.

Lemma sliced_close_present (csv : list RawRow) (a b : Z) :
  Forall (fun r => Close r <> None) (loc_dates (load csv) a b).
Proof.
  apply Forall_forall. intros r Hr. apply loc_dates_In in Hr.
  pose proof (load_close_present csv) as H. rewrite Forall_forall in H.
  exact (H r Hr).
Qed.

(** X5: the script never fails at the KPI block: it stops at one of its
    three messages or shows the KPIs, and when it shows them the series
    is not empty, the first KPI is its first value, the second its last
    value and the third the variation between the two. *)
Theorem page_kpis_defined (csv : list RawRow) (f : Freq) (m : Metric)
        (dt_ini dt_fim : Z) :
  page to_datetime to_numeric csv f m dt_ini dt_fim <> IndexError /\
  forall df s k,
    page to_datetime to_numeric csv f m dt_ini dt_fim = Shown df s k ->
    df = loc_dates (load csv) dt_ini dt_fim /\
    s = serie f m df /\
    exists v rest,
      map snd s = v :: rest /\
      primeiro k = v /\ ultimo k = last (v :: rest) v /\
      Some (kpi_var_pct k) = var_pct (v :: rest).
Proof.
  unfold page, page_from. cbv zeta.
  destruct (is_empty (load csv)); [split; [discriminate|discriminate]|].
  destruct (is_empty (loc_dates (load csv) dt_ini dt_fim));
    [split; [discriminate|discriminate]|].
  destruct (serie f m (loc_dates (load csv) dt_ini dt_fim)) as [|p s'] eqn:Es;
    [split; discriminate|].
  cbn [is_empty map].
  destruct (kpis_cons (snd p) (map snd s')) as (x & Hx & Hk). rewrite Hk.
  split; [discriminate|].
  intros df s k H. injection H as <- <- <-.
  split; [reflexivity|]. split; [symmetry; exact Es|].
  exists (snd p), (map snd s'). simpl. auto.
Qed.

(** X6: the script stops with the load error exactly when no line of
    the file has both a readable time and a readable close price. *)
Theorem page_load_failed_iff (csv : list RawRow) (f : Freq) (m : Metric)
        (dt_ini dt_fim : Z) :
  page to_datetime to_numeric csv f m dt_ini dt_fim = Stopped LoadFailed <->
  Forall (fun r => parses to_datetime to_numeric r = false) csv.
Proof.
  rewrite <- load_empty_iff. unfold page, page_from. cbv zeta.
  destruct (load csv) as [|r rest] eqn:E.
  - simpl. tauto.
  - cbn [is_empty]. split; [|discriminate].
    destruct (is_empty (loc_dates (r :: rest) dt_ini dt_fim));
      [discriminate|].
    destruct (is_empty (serie f m (loc_dates (r :: rest) dt_ini dt_fim)));
      [discriminate|].
    destruct (kpis _); discriminate.
Qed.

(** X7: for the closing price and for the volume the script never stops
    at "no data for the metric": once the date range has a row, the
    resampled series has an entry. *)
Theorem page_metric_never_empty (csv : list RawRow) (f : Freq)
        (dt_ini dt_fim : Z) :
  page to_datetime to_numeric csv f MClose dt_ini dt_fim <> Stopped EmptyMetric /\
  page to_datetime to_numeric csv f MVolume dt_ini dt_fim <> Stopped EmptyMetric.
Proof.
  unfold page, page_from. cbv zeta.
  destruct (is_empty (load csv)); [split; discriminate|].
  destruct (is_empty (loc_dates (load csv) dt_ini dt_fim)) eqn:Ed;
    [split; discriminate|].
  apply is_empty_false in Ed. split.
  - pose proof (serie_close_nonempty f _ (sliced_close_present csv dt_ini dt_fim) Ed) as H.
    apply is_empty_false in H. rewrite H. destruct (kpis _); discriminate.
  - pose proof (serie_volume_nonempty f _ Ed) as H.
    apply is_empty_false in H. rewrite H. destruct (kpis _); discriminate.
Qed.

(** X8: with the dates the date input starts from, those of the
    earliest and the latest row, the slice is the whole loaded frame and
    the script does not stop at "no data for the range"; a frame without
    rows stops at the load error whatever the dates. *)
Theorem page_default_range (csv : list RawRow) (f : Freq) (m : Metric) :
  match date_bounds (load csv) with
  | Some (min_d, max_d) =>
      loc_dates (load csv) min_d max_d = load csv /\
      page to_datetime to_numeric csv f m min_d max_d <> Stopped EmptyRange /\
      page to_datetime to_numeric csv f m min_d max_d <> Stopped LoadFailed
  | None =>
      forall dt_ini dt_fim,
        page to_datetime to_numeric csv f m dt_ini dt_fim = Stopped LoadFailed
  end.
Proof.
  destruct (date_bounds (load csv)) as [[min_d max_d]|] eqn:Eb.
  - pose proof (loc_dates_full (load csv) min_d max_d (load_sorted csv) Eb) as Hfull.
    split; [exact Hfull|].
    unfold page, page_from. cbv zeta. rewrite Hfull.
    destruct (load csv) as [|r rest]; [discriminate|].
    cbn [is_empty].
    destruct (is_empty (serie f m (r :: rest)));
      [split; discriminate|].
    destruct (kpis _); split; discriminate.
  - intros dt_ini dt_fim. unfold page, page_from.
    destruct (load csv) as [|r rest]; [reflexivity|]. discriminate.
Qed.

(** X9: the frame that reaches the charts is a run of consecutive rows
    of the loaded frame, is ascending by time and has a closing price in
    every row. *)
Theorem sliced_frame_invariants (csv : list RawRow) (dt_ini dt_fim : Z) :
  (exists pre post,
      load csv = pre ++ loc_dates (load csv) dt_ini dt_fim ++ post) /\
  sorted_by_time (loc_dates (load csv) dt_ini dt_fim) /\
  exists closes,
    map Close (loc_dates (load csv) dt_ini dt_fim) = map (@Some Qc) closes.
Proof.
  split; [apply loc_dates_segment|].
  split; [apply loc_dates_sorted, load_sorted|].
  pose proof (sliced_close_present csv dt_ini dt_fim) as H.
  induction (loc_dates (load csv) dt_ini dt_fim) as [|r df IH].
  - exists []. reflexivity.
  - apply Forall_cons_iff in H as [Hr Hdf].
    destruct (IH Hdf) as (closes & E).
    destruct (Close r) as [q|] eqn:Hq; [|congruence].
    exists (q :: closes). simpl. rewrite Hq, E. reflexivity.
Qed.

End PageFacts.

Lemma page_kpis_defined_witness :
  exists df s k,
    page sample_to_datetime sample_to_numeric sample_csv FreqD MClose
         (days_from_civil 2020 1 1) (days_from_civil 2020 1 2)
    = Shown df s k /\
    s = serie FreqD MClose df /\
    exists v rest,
      map snd s = v :: rest /\ primeiro k = v /\ ultimo k = last (v :: rest) v.
Proof.
  pose proof (page_kpis_defined sample_to_datetime sample_to_numeric sample_csv
                FreqD MClose (days_from_civil 2020 1 1)
                (days_from_civil 2020 1 2)) as [_ H].
  destruct (page sample_to_datetime sample_to_numeric sample_csv FreqD MClose
                 (days_from_civil 2020 1 1) (days_from_civil 2020 1 2))
    as [st| |df s k] eqn:E.
  - exfalso. vm_compute in E. discriminate E.
  - exfalso. vm_compute in E. discriminate E.
  - exists df, s, k. split; [reflexivity|].
    destruct (H df s k eq_refl) as (_ & Hs & v & rest & Hv & Hp & Hu & _).
    split; [exact Hs|]. exists v, rest. auto.
Defined.

(** ** The yearly candlestick tab *)

Section CandleFacts.

Lemma In_unique (xs : list Z) (x : Z) : In x (unique xs) <-> In x xs.
Proof.
  induction xs as [|a xs IH]; simpl; [tauto|].
  rewrite filter_In, IH, negb_true_iff, Z.eqb_neq.
  destruct (Z.eq_dec a x) as [->|Hne]; [tauto|].
  split; [tauto|]. intros [H|H]; [tauto|]. right. split; congruence.
Qed.

Lemma NoDup_unique (xs : list Z) : NoDup (unique xs).
Proof.
  induction xs as [|a xs IH]; simpl; constructor.
  - rewrite filter_In, negb_true_iff, Z.eqb_neq. tauto.
  - apply NoDup_filter, IH.
Qed.

Lemma insert_Z_perm (x : Z) (xs : list Z) :
  Permutation (insert_Z x xs) (x :: xs).
Proof.
  induction xs as [|y xs IH]; simpl; [apply Permutation_refl|].
  destruct (x <? y)%Z; [apply Permutation_refl|].
  apply perm_trans with (y :: x :: xs); [apply perm_skip, IH|apply perm_swap].
Qed.

Lemma sorted_list_perm (xs : list Z) : Permutation (sorted_list xs) xs.
Proof.
  induction xs as [|x xs IH]; simpl; [apply perm_nil|].
  apply perm_trans with (x :: sorted_list xs);
    [apply insert_Z_perm|apply perm_skip, IH].
Qed.

Lemma insert_Z_sorted (x : Z) (xs : list Z) :
  StronglySorted Z.le xs -> StronglySorted Z.le (insert_Z x xs).
Proof.
  induction 1 as [|y xs Hs IH Hall]; simpl.
  - constructor; constructor.
  - destruct (x <? y)%Z eqn:E.
    + apply Z.ltb_lt in E. constructor; [constructor; assumption|].
      constructor; [lia|].
      eapply Forall_impl; [|exact Hall]. intros z Hz. simpl in Hz. lia.
    + apply Z.ltb_ge in E. constructor; [exact IH|].
      apply (Permutation_Forall (Permutation_sym (insert_Z_perm x xs))).
      constructor; assumption.
Qed.

Lemma sorted_list_sorted (xs : list Z) : StronglySorted Z.le (sorted_list xs).
Proof.
  induction xs as [|x xs IH]; simpl; [constructor|].
  apply insert_Z_sorted, IH.
Qed.

Lemma sorted_strict (xs : list Z) :
  StronglySorted Z.le xs -> NoDup xs -> StronglySorted Z.lt xs.
Proof.
  induction 1 as [|x xs Hs IH Hall]; intros Hnd; constructor.
  - apply IH. apply NoDup_cons_iff in Hnd. tauto.
  - apply NoDup_cons_iff in Hnd as [Hx _].
    rewrite Forall_forall in *. intros z Hz.
    specialize (Hall z Hz). simpl in Hall.
    assert (x <> z) by (intros ->; contradiction). lia.
Qed.

Lemma last_In {A} (xs : list A) (d : A) : xs <> [] -> In (last xs d) xs.
Proof.
  intros H. destruct (exists_last H) as (l' & a & ->).
  rewrite last_last. apply in_or_app. right. left. reflexivity.
Qed.

Lemma sorted_last_max (xs : list Z) (d : Z) :
  StronglySorted Z.le xs -> Forall (fun z => (z <= last xs d)%Z) xs.
Proof.
  induction 1 as [|x xs Hs IH Hall]; [constructor|].
  destruct xs as [|y ys].
  - constructor; [simpl; lia|constructor].
  - change (last (x :: y :: ys) d) with (last (y :: ys) d).
    constructor; [|exact IH].
    rewrite Forall_forall in Hall. apply (Hall (last (y :: ys) d)).
    apply last_In. discriminate.
Qed.

Lemma In_anos (df : DataFrame) (y : Z) :
  In y (anos df) <-> exists r, In r df /\ year_of_row r = y.
Proof.
  unfold anos. split.
  - intros H. apply (Permutation_in _ (sorted_list_perm _)) in H.
    apply In_unique, in_map_iff in H as (r & E & Hr). eauto.
  - intros (r & Hr & E).
    apply (Permutation_in _ (Permutation_sym (sorted_list_perm _))).
    apply In_unique, in_map_iff. eauto.
Qed.

Lemma anos_strict (df : DataFrame) : StronglySorted Z.lt (anos df).
Proof.
  unfold anos. apply sorted_strict; [apply sorted_list_sorted|].
  apply (Permutation_NoDup (Permutation_sym (sorted_list_perm _))).
  apply NoDup_unique.
Qed.

Lemma iloc_last_In {A} (xs : list A) (x : A) :
  iloc_last xs = Some x -> In x xs.
Proof.
  destruct xs as [|a xs]; [discriminate|]. unfold iloc_last.
  intros H. injection H as H. rewrite <- H.
  apply (last_In (a :: xs) a). discriminate.
Qed.

(** The last row that passes a filter, within the frame. *)
Lemma filter_last_split {A} (p : A -> bool) (xs : list A) (d : A) :
  filter p xs <> [] ->
  exists pre r post,
    xs = pre ++ r :: post /\ p r = true /\ last (filter p xs) d = r /\
    Forall (fun x => p x = false) post.
Proof.
  induction xs as [|x xs IH] using rev_ind; [simpl; congruence|].
  rewrite filter_app. simpl. destruct (p x) eqn:E.
  - intros _. exists xs, x, []. rewrite last_last. auto.
  - rewrite app_nil_r. intros H.
    destruct (IH H) as (pre & r & post & -> & Hr & Hl & Hpost).
    exists pre, r, (post ++ [x]). rewrite <- app_assoc. simpl.
    repeat split; auto. apply Forall_app. split; [exact Hpost|].
    constructor; [exact E|constructor].
Qed.

Lemma last_map {A B} (g : A -> B) (xs : list A) (d : A) :
  last (map g xs) (g d) = g (last xs d).
Proof.
  induction xs as [|x xs IH]; [reflexivity|].
  destruct xs as [|y ys]; [reflexivity|].
  change (last (map g (x :: y :: ys)) (g d)) with (last (map g (y :: ys)) (g d)).
  exact IH.
Qed.

Lemma df_year_nonempty (df : DataFrame) (ano : Z) :
  df_year df ano <> [] <-> In ano (anos df).
Proof.
  rewrite In_anos. unfold df_year. split.
  - intros H. destruct (filter _ df) as [|r rest] eqn:E; [congruence|].
    assert (Hin : In r (r :: rest)) by (left; reflexivity).
    rewrite <- E in Hin. apply filter_In in Hin as [Hr Hy].
    apply Z.eqb_eq in Hy. eauto.
  - intros (r & Hr & Hy) E.
    assert (Hin : In r (filter (fun r0 => (year_of_row r0 =? ano)%Z) df)).
    { apply filter_In. split; [exact Hr|]. apply Z.eqb_eq, Hy. }
    rewrite E in Hin. destruct Hin.
Qed.

End CandleFacts.

(** X10: the years offered by the select box are in strictly ascending
    order, without repetition, and are exactly the years in which the
    frame has a row; the year selected at first is the latest of them,
    and there is none only for a frame without rows. *)
Theorem anos_sorted_years (df : DataFrame) :
  StronglySorted Z.lt (anos df) /\
  (forall y, In y (anos df) <-> exists r, In r df /\ year_of_row r = y) /\
  match default_ano df with
  | Some y => In y (anos df) /\ Forall (fun r => (year_of_row r <= y)%Z) df
  | None => df = []
  end.
Proof.
  split; [apply anos_strict|]. split; [apply In_anos|].
  unfold default_ano. destruct (anos df) as [|a rest] eqn:E.
  - simpl. destruct df as [|r df']; [reflexivity|]. exfalso.
    assert (H : In (year_of_row r) (anos (r :: df'))).
    { apply In_anos. exists r. split; [left|]; reflexivity. }
    rewrite E in H. destruct H.
  - unfold iloc_last. split.
    + rewrite <- E. apply last_In. rewrite E. discriminate.
    + apply Forall_forall. intros r Hr.
      assert (Hin : In (year_of_row r) (a :: rest)).
      { rewrite <- E. apply In_anos. eauto. }
      assert (Hs : StronglySorted Z.le (a :: rest)).
      { rewrite <- E. unfold anos. apply sorted_list_sorted. }
      pose proof (sorted_last_max (a :: rest) a Hs) as Hmax.
      rewrite Forall_forall in Hmax. exact (Hmax _ Hin).
Qed.

Lemma anos_sorted_years_witness :
  In 2020%Z (anos two_months) <->
  exists r, In r two_months /\ year_of_row r = 2020%Z.
Proof.
  destruct (anos_sorted_years two_months) as (_ & H & _).
  exact (H 2020%Z).
Defined.

(** X11: the candlestick tab never fails on [iloc].  For a year in
    which the frame has no row it shows the warning.  For a year offered
    by the select box, on a frame with a closing price in every row, it
    shows the chart of the rows of that year, with the closing prices of
    the first and of the last of these rows and the variation between
    them: (last - first) / first * 100, or 0 when the first is 0. *)
Theorem candle_tab_year (df : DataFrame) (ano : Z) :
  candle_tab df ano <> CandleIndexError /\
  (~ In ano (anos df) -> candle_tab df ano = CandleWarning) /\
  (In ano (anos df) ->
   Forall (fun r => Close r <> None) df ->
   exists first_row last_row a b,
     iloc_first (df_year df ano) = Some first_row /\
     iloc_last (df_year df ano) = Some last_row /\
     Close first_row = Some a /\ Close last_row = Some b /\
     candle_tab df ano
     = Candle (Some a) (Some b) (retorno_pct (Some a) (Some b))
              (df_year df ano) /\
     (a <> 0%Qc ->
      retorno_pct (Some a) (Some b) = Fin ((b - a) / a * hundred)%Qc) /\
     (a = 0%Qc -> retorno_pct (Some a) (Some b) = Fin 0%Qc)).
Proof.
  split; [|split].
  - unfold candle_tab. cbv zeta.
    destruct (df_year df ano) as [|r rest]; [simpl; discriminate|].
    destruct (is_empty (r :: rest) || is_empty (present (map Close (r :: rest))));
      [discriminate|].
    simpl. discriminate.
  - intros H. unfold candle_tab. cbv zeta.
    destruct (df_year df ano) as [|r rest] eqn:E; [reflexivity|].
    exfalso. apply H, df_year_nonempty. rewrite E. discriminate.
  - intros Hin Hall. apply df_year_nonempty in Hin.
    assert (Hsub : forall r, In r (df_year df ano) -> Close r <> None).
    { intros r Hr. unfold df_year in Hr. apply filter_In in Hr as [Hr _].
      rewrite Forall_forall in Hall. exact (Hall r Hr). }
    unfold candle_tab. cbv zeta.
    destruct (df_year df ano) as [|r rest] eqn:E; [congruence|].
    assert (Hl : In (last (r :: rest) r) (r :: rest))
      by (apply last_In; discriminate).
    destruct (Close r) as [a|] eqn:Ha;
      [|exfalso; apply (Hsub r); [left; reflexivity|exact Ha]].
    destruct (Close (last (r :: rest) r)) as [b|] eqn:Hb;
      [|exfalso; exact (Hsub _ Hl Hb)].
    exists r, (last (r :: rest) r), a, b.
    split; [reflexivity|]. split; [reflexivity|].
    split; [exact Ha|]. split; [exact Hb|]. split.
    + assert (Hne : is_empty (present (map Close (r :: rest))) = false).
      { cbn [map]. rewrite Ha. reflexivity. }
      assert (Hf : iloc_first (map Close (r :: rest)) = Some (Some a)).
      { cbn [map iloc_first hd_error]. rewrite Ha. reflexivity. }
      assert (Hla : iloc_last (map Close (r :: rest)) = Some (Some b)).
      { unfold iloc_last. cbn [map].
        change (Close r :: map Close rest) with (map Close (r :: rest)).
        rewrite last_map, Hb. reflexivity. }
      rewrite Hne, Hf, Hla. reflexivity.
    + split.
      * intros Hne. unfold retorno_pct, truthy. simpl lift.
        apply Qc_eqb_neq in Hne. rewrite Hne. simpl. rewrite Hne. reflexivity.
      * intros ->. reflexivity.
Qed.

Lemma candle_tab_year_witness :
  candle_tab two_months 1999 = CandleWarning /\
  exists first_row last_row a b,
    iloc_first (df_year two_months 2020) = Some first_row /\
    iloc_last (df_year two_months 2020) = Some last_row /\
    Close first_row = Some a /\ Close last_row = Some b /\
    candle_tab two_months 2020
    = Candle (Some a) (Some b) (retorno_pct (Some a) (Some b))
             (df_year two_months 2020).
Proof.
  destruct (candle_tab_year two_months 1999) as (_ & Hw & _).
  destruct (candle_tab_year two_months 2020) as (_ & _ & Hc).
  split.
  - apply Hw. vm_compute. intros [H|[]]. discriminate H.
  - destruct Hc as (fr & lr & a & b & H1 & H2 & H3 & H4 & H5 & _).
    + vm_compute. left. reflexivity.
    + repeat constructor; discriminate.
    + exists fr, lr, a, b. auto.
Defined.

(** X12: the closing price that the candlestick tab shows for the end
    of a year is the entry of that year in the yearly resampled closing
    price. *)
Theorem candle_last_close_is_yearly_close
        (df : DataFrame) (ano : Z) (first_close : option Qc) (l : Qc)
        (ret : fval) (rows : DataFrame) :
  candle_tab df ano = Candle first_close (Some l) ret rows ->
  In (ano, l) (serie FreqY MClose df).
Proof.
  unfold candle_tab. cbv zeta.
  destruct (is_empty (df_year df ano) || _); [discriminate|].
  destruct (df_year df ano) as [|r0 rest] eqn:E; [discriminate|].
  intros H.
  assert (Hl : Close (last (r0 :: rest) r0) = Some l).
  { revert H. unfold iloc_first, iloc_last. cbn [map hd_error].
    change (Close r0 :: map Close rest) with (map Close (r0 :: rest)).
    rewrite last_map. intros H. injection H as _ Hl _ _. exact Hl. }
  clear H. unfold df_year in E.
  destruct (filter_last_split (fun r => (year_of_row r =? ano)%Z) df r0)
    as (pre & r & post & Hdf & Hr & Hlast & Hpost).
  { rewrite E. discriminate. }
  rewrite E in Hlast. rewrite Hlast in Hl.
  unfold serie. simpl agg_of. apply In_serie_last.
  exists pre, r, post. split; [exact Hdf|].
  apply Z.eqb_eq in Hr. split; [exact Hr|]. split; [exact Hl|].
  intros r' Hin Hb. exfalso.
  rewrite Forall_forall in Hpost. specialize (Hpost r' Hin).
  apply Z.eqb_neq in Hpost. apply Hpost. exact Hb.
Qed.

Lemma candle_last_close_is_yearly_close_witness :
  In (2020%Z, of_Z 110) (serie FreqY MClose two_months).
Proof.
  apply (candle_last_close_is_yearly_close two_months 2020
           (Some (of_Z 100)) (of_Z 110)
           (retorno_pct (Some (of_Z 100)) (Some (of_Z 110)))
           (df_year two_months 2020)).
  vm_compute. reflexivity.
Defined.

(** ** Rolling means and crossovers on any frame *)

Section RollingFacts.

Lemma In_present (cs : list (option Qc)) (x : Qc) :
  In x (present cs) <-> In (Some x) cs.
Proof.
  unfold present. rewrite in_flat_map. split.
  - intros ([q|] & Hin & Hx); simpl in Hx; [|destruct Hx].
    destruct Hx as [->|[]]. exact Hin.
  - intros H. exists (Some x). split; [exact H|left; reflexivity].
Qed.

Lemma present_length_le (cs : list (option Qc)) :
  (List.length (present cs) <= List.length cs)%nat.
Proof.
  induction cs as [|[q|] cs IH]; simpl; lia.
Qed.

Lemma window_length_le (w i : nat) (cs : list (option Qc)) :
  (List.length (window w i cs) <= S i)%nat.
Proof.
  unfold window. rewrite length_skipn, length_firstn. lia.
Qed.

(** The positions of the entries of a window. *)
Lemma In_window (w i : nat) (cs : list (option Qc)) (c : option Qc) :
  In c (window w i cs) <->
  exists j, (S i - w <= j <= i)%nat /\ nth_error cs j = Some c.
Proof.
  unfold window. split.
  - intros H. apply In_nth_error in H as (n & Hn).
    rewrite nth_error_skipn, nth_error_firstn in Hn.
    destruct (S i - w + n <? S i)%nat eqn:E; [|discriminate].
    apply Nat.ltb_lt in E. exists (S i - w + n)%nat. split; [lia|exact Hn].
  - intros (j & Hj & Hc). apply (nth_error_In _ (j - (S i - w))).
    rewrite nth_error_skipn, nth_error_firstn.
    replace (S i - w + (j - (S i - w)))%nat with j by lia.
    replace (j <? S i)%nat with true by (symmetry; apply Nat.ltb_lt; lia).
    exact Hc.
Qed.

Lemma rolling_mean_length (w m : nat) (cs : list (option Qc)) :
  List.length (rolling_mean w m cs) = List.length cs.
Proof. unfold rolling_mean. rewrite length_map, length_seq. reflexivity. Qed.

Lemma nth_error_rolling_inv (w m : nat) (cs : list (option Qc)) (i : nat)
      (c : option Qc) :
  nth_error (rolling_mean w m cs) i = Some c ->
  (i < List.length cs)%nat /\ roll_mean_at w m cs i = c.
Proof.
  intros H.
  assert (Hi : (i < List.length cs)%nat).
  { rewrite <- (rolling_mean_length w m cs). apply nth_error_Some. congruence. }
  split; [exact Hi|]. rewrite (nth_error_rolling w m cs i Hi) in H.
  congruence.
Qed.

(** Before the first full window the mean that requires a full window
    is NaN, whatever the entries. *)
Lemma roll_full_none (w : nat) (cs : list (option Qc)) (i : nat) :
  (S i < w)%nat -> roll_mean_at w w cs i = None.
Proof.
  intros H. unfold roll_mean_at. cbv zeta.
  pose proof (present_length_le (window w i cs)) as H1.
  pose proof (window_length_le w i cs) as H2.
  replace (w <=? List.length (present (window w i cs)))%nat with false
    by (symmetry; apply Nat.leb_gt; lia).
  reflexivity.
Qed.

(** With [min_periods=1] the mean is NaN only over a window without any
    value. *)
Lemma roll_one_none_iff (w : nat) (cs : list (option Qc)) (i : nat) :
  roll_mean_at w 1 cs i = None <->
  forall j x, (S i - w <= j <= i)%nat -> nth_error cs j <> Some (Some x).
Proof.
  unfold roll_mean_at. cbv zeta.
  destruct (present (window w i cs)) as [|q qs] eqn:E.
  - simpl. split; [|reflexivity]. intros _ j x Hj Hc.
    assert (Hin : In x (present (window w i cs))).
    { apply In_present, In_window. eauto. }
    rewrite E in Hin. destruct Hin.
  - cbn [List.length Nat.leb Nat.ltb andb]. split; [discriminate|].
    intros H. exfalso.
    assert (Hin : In q (present (window w i cs))) by (rewrite E; left; reflexivity).
    apply In_present, In_window in Hin as (j & Hj & Hc). exact (H j q Hj Hc).
Qed.

End RollingFacts.

(** X14: the 30-day volume average has one entry per row, and an entry
    is NaN exactly when no row of its window, the row itself and up to
    29 rows before it, has a volume. *)
Theorem vol_ma_nan_iff (df : DataFrame) :
  List.length (vol_ma df) = List.length df /\
  forall i,
    (i < List.length df)%nat ->
    (nth_error (vol_ma df) i = Some None <->
     forall j r, (S i - 30 <= j <= i)%nat -> nth_error df j = Some r ->
                 Volume r = None).
Proof.
  unfold vol_ma. split; [rewrite rolling_mean_length; apply length_map|].
  intros i Hi.
  rewrite nth_error_rolling by (rewrite length_map; exact Hi).
  split.
  - intros H j r Hj Hr. injection H as H.
    destruct (Volume r) as [x|] eqn:Hx; [|reflexivity]. exfalso.
    apply (proj1 (roll_one_none_iff 30 (map Volume df) i) H j x Hj).
    rewrite nth_error_map, Hr. simpl. rewrite Hx. reflexivity.
  - intros H. f_equal. apply roll_one_none_iff. intros j x Hj Hc.
    rewrite nth_error_map in Hc.
    destruct (nth_error df j) as [r|] eqn:Hr; [|discriminate].
    injection Hc as Hc. rewrite (H j r Hj Hr) in Hc. discriminate.
Qed.

(** X15: the markers of the moving-average chart lie on rows of the
    frame, and none lies before the row at position [win_long]: a
    crossover needs the long average at the row and at the row before
    it. *)
Theorem crossings_after_long_window
        (df : DataFrame) (win_short win_long : nat) (ma : MovingAverages)
        (i : nat) :
  moving_average_tab df win_short win_long = Chart ma ->
  In i (ma_up ma) \/ In i (ma_dn ma) ->
  (win_long <= i < List.length df)%nat.
Proof.
  unfold moving_average_tab.
  destruct (win_long <=? win_short)%nat; [discriminate|].
  intros H. injection H as <-. cbn [ma_up ma_dn].
  set (s := rolling_close win_short df).
  assert (Hlong : forall j b d,
             nth_error (rolling_close win_long df) j = Some (Some b) ->
             nth_error (rolling_close win_long df) (S j) = Some (Some d) ->
             (win_long <= S j < List.length df)%nat).
  { unfold rolling_close. intros j b d Hj Hi.
    apply nth_error_rolling_inv in Hj as [_ Hj].
    apply nth_error_rolling_inv in Hi as [Hi _].
    rewrite length_map in Hi. split; [|exact Hi].
    destruct (Nat.lt_ge_cases (S j) win_long) as [Hlt|Hge]; [|exact Hge].
    rewrite (roll_full_none _ _ _ Hlt) in Hj. discriminate. }
  intros [Hu|Hd].
  - apply up_crossing_iff in Hu
      as (j & a & b & c & d & -> & _ & Hlj & _ & Hli & _).
    exact (Hlong j b d Hlj Hli).
  - apply down_crossing_iff in Hd
      as (j & a & b & c & d & -> & _ & Hlj & _ & Hli & _).
    exact (Hlong j b d Hlj Hli).
Qed.

Lemma vol_ma_nan_iff_witness :
  nth_error (vol_ma zigzag) 2 = Some None <->
  forall j r, (3 - 30 <= j <= 2)%nat -> nth_error zigzag j = Some r ->
              Volume r = None.
Proof.
  destruct (vol_ma_nan_iff zigzag) as [_ H].
  apply (H 2%nat). cbn [List.length zigzag]. lia.
Defined.

Lemma crossings_after_long_window_witness :
  In 3%nat (up_crossings (rolling_close 2 zigzag) (rolling_close 3 zigzag)) /\
  (3 <= 3 < List.length zigzag)%nat.
Proof.
  assert (Hin : In 3%nat (up_crossings (rolling_close 2 zigzag)
                                       (rolling_close 3 zigzag))).
  { vm_compute. left. reflexivity. }
  split; [exact Hin|].
  apply (crossings_after_long_window zigzag 2 3
           (mkMA (rolling_close 2 zigzag) (rolling_close 3 zigzag)
                 (up_crossings (rolling_close 2 zigzag) (rolling_close 3 zigzag))
                 (down_crossings (rolling_close 2 zigzag) (rolling_close 3 zigzag)))
           3).
  - reflexivity.
  - left. exact Hin.
Defined.

(** ** Resampling: order, one bucket *)

Section ResampleMore.

Variable f : Freq.

Lemma series_bounds_exist (s : Series) :
  s <> [] -> exists lo hi, series_min s = Some lo /\ series_max s = Some hi.
Proof.
  destruct s as [|p rest]; [congruence|]. intros _. simpl. eauto.
Qed.

Lemma seq_lower (a n k : nat) : In k (seq a n) -> (a <= k)%nat.
Proof. intros H. apply in_seq in H. lia. Qed.

Lemma Zrange_from_sorted (lo : Z) (a n : nat) :
  StronglySorted Z.lt (map (fun k => (lo + Z.of_nat k)%Z) (seq a n)).
Proof.
  revert a. induction n as [|n IH]; intros a; cbn [seq map]; constructor.
  - apply IH.
  - apply Forall_forall. intros z Hz.
    apply in_map_iff in Hz as (k & <- & Hk). apply seq_lower in Hk. lia.
Qed.

Lemma Zrange_sorted (lo hi : Z) : StronglySorted Z.lt (Zrange lo hi).
Proof. unfold Zrange. apply Zrange_from_sorted. Qed.

Lemma dropna_key_In {K} (l : list (K * option Qc)) (k : K) :
  In k (map fst (dropna l)) -> In k (map fst l).
Proof.
  intros H. apply in_map_iff in H as ([k' q] & E & Hin).
  simpl in E. subst k'. apply In_dropna in Hin.
  apply in_map_iff. exists (k, Some q). auto.
Qed.

Lemma dropna_keys_sorted (l : list (Z * option Qc)) :
  StronglySorted Z.lt (map fst l) ->
  StronglySorted Z.lt (map fst (dropna l)).
Proof.
  induction l as [|[k c] l IH]; intros H; [constructor|].
  cbn [map fst] in H. apply StronglySorted_inv in H as [Hs Hall].
  assert (Hrest : StronglySorted Z.lt (map fst (dropna l))) by (apply IH, Hs).
  unfold dropna in *. cbn [filter_map snd fst].
  destruct c as [q|]; [|exact Hrest].
  cbn [map fst]. constructor; [exact Hrest|].
  apply Forall_forall. intros z Hz.
  rewrite Forall_forall in Hall. apply Hall.
  apply (dropna_key_In l z). exact Hz.
Qed.

Lemma resample_keys_sorted (a : Agg) (s : Series) :
  StronglySorted Z.lt (map fst (resample f a s)).
Proof.
  unfold resample.
  destruct (series_min s) as [lo|]; [destruct (series_max s) as [hi|]|];
    try constructor.
  rewrite map_map. simpl. rewrite map_id. apply Zrange_sorted.
Qed.

Lemma fold_min_In (ts : list Z) (a : Z) : In (fold_left Z.min ts a) (a :: ts).
Proof.
  revert a. induction ts as [|t ts IH]; intros a; [left; reflexivity|].
  cbn [fold_left]. destruct (IH (Z.min a t)) as [H|H].
  - rewrite <- H. destruct (Z.min_spec a t) as [[_ E]|[_ E]]; rewrite E.
    + left. reflexivity.
    + right. left. reflexivity.
  - right. right. exact H.
Qed.

Lemma fold_max_In (ts : list Z) (a : Z) : In (fold_left Z.max ts a) (a :: ts).
Proof.
  revert a. induction ts as [|t ts IH]; intros a; [left; reflexivity|].
  cbn [fold_left]. destruct (IH (Z.max a t)) as [H|H].
  - rewrite <- H. destruct (Z.max_spec a t) as [[_ E]|[_ E]]; rewrite E.
    + right. left. reflexivity.
    + left. reflexivity.
  - right. right. exact H.
Qed.

Lemma series_min_In (s : Series) (lo : Timestamp) :
  series_min s = Some lo -> In lo (map fst s).
Proof.
  destruct s as [|p rest]; [discriminate|]. simpl. intros H.
  injection H as <-. apply (fold_min_In (map fst rest) (fst p)).
Qed.

Lemma series_max_In (s : Series) (hi : Timestamp) :
  series_max s = Some hi -> In hi (map fst s).
Proof.
  destruct s as [|p rest]; [discriminate|]. simpl. intros H.
  injection H as <-. apply (fold_max_In (map fst rest) (fst p)).
Qed.

Lemma Zrange_single (b : Z) : Zrange b b = [b].
Proof.
  unfold Zrange. replace (b - b + 1)%Z with 1%Z by lia.
  simpl. rewrite Z.add_0_r. reflexivity.
Qed.

(** A series whose rows all fall in bucket [b] resamples to the one
    entry of that bucket. *)
Lemma resample_single (a : Agg) (s : Series) (b : Z) :
  s <> [] ->
  (forall t c, In (t, c) s -> bucket f t = b) ->
  resample f a s = [(b, agg_apply a (group f b s))].
Proof.
  intros Hne Hall.
  destruct (series_bounds_exist s Hne) as (lo & hi & Hlo & Hhi).
  assert (Hb : forall t, In t (map fst s) -> bucket f t = b).
  { intros t Ht. apply in_map_iff in Ht as ([t' c] & E & Hin).
    simpl in E. subst t'. exact (Hall t c Hin). }
  unfold resample. rewrite Hlo, Hhi.
  rewrite (Hb lo (series_min_In s lo Hlo)), (Hb hi (series_max_In s hi Hhi)).
  rewrite Zrange_single. reflexivity.
Qed.

End ResampleMore.

(** X17: the entries of [serie] are in strictly ascending order of
    their calendar bucket, for every period and metric. *)
Theorem serie_keys_ascending (f : Freq) (m : Metric) (df : DataFrame) :
  StronglySorted Z.lt (map fst (serie f m df)).
Proof.
  unfold serie. apply dropna_keys_sorted, resample_keys_sorted.
Qed.

(** X18: a frame whose rows all fall in one calendar bucket, such as
    the days of one year under the yearly period, resamples to at most
    one entry, that of this bucket; for the volume it is exactly one
    entry, the sum of the volumes present. *)
Theorem serie_single_bucket (f : Freq) (df : DataFrame) (b : Z) :
  df <> [] ->
  (forall r, In r df -> bucket f (open_time r) = b) ->
  serie f MVolume df = [(b, volume_total f b df)] /\
  forall m,
    (List.length (serie f m df) <= 1)%nat /\
    Forall (fun p => fst p = b) (serie f m df).
Proof.
  intros Hne Hall.
  assert (Hs : forall m a,
             resample f a (get_column m df)
             = [(b, agg_apply a (group f b (get_column m df)))]).
  { intros m a. apply resample_single.
    - unfold get_column. destruct df; [congruence|discriminate].
    - intros t c Hin. apply In_get_column in Hin as (r & Hr & <- & _).
      exact (Hall r Hr). }
  split.
  - unfold serie. rewrite Hs. simpl agg_of. cbn [agg_apply dropna filter_map snd fst].
    unfold dropna. cbn [filter_map snd fst]. rewrite qsum_group. reflexivity.
  - intros m. unfold serie. rewrite Hs. unfold dropna. cbn [filter_map snd fst].
    destruct (agg_apply (agg_of m) (group f b (get_column m df))) as [q|].
    + split; [simpl; lia|]. constructor; [reflexivity|constructor].
    + split; [simpl; lia|constructor].
Qed.

Lemma serie_single_bucket_witness :
  serie FreqY MVolume three_days = [(2020%Z, volume_total FreqY 2020 three_days)].
Proof.
  destruct (serie_single_bucket FreqY three_days 2020) as [H _].
  - discriminate.
  - intros r [<-|[<-|[<-|[]]]]; vm_compute; reflexivity.
  - exact H.
Defined.

Lemma page_load_failed_iff_witness :
  page sample_to_datetime sample_to_numeric
       [mkRaw "yesterday" "10" "20" "10" "20" "10";
        mkRaw "2020-01-02" "10" "20" "10" "n/a" "10"]%string
       FreqM MClose 0 0
  = Stopped LoadFailed.
Proof.
  apply (proj2 (page_load_failed_iff sample_to_datetime sample_to_numeric
                  [mkRaw "yesterday" "10" "20" "10" "20" "10";
                   mkRaw "2020-01-02" "10" "20" "10" "n/a" "10"]%string
                  FreqM MClose 0%Z 0%Z)).
  repeat constructor.
Defined.
